(** * SynapseHA: name resolution, fuzzy search and the two-tier cache

    A shallow embedding of
      - [addons/synapseha/src/lib/name-resolver.ts]  (class [NameResolver]),
      - [addons/mcp-ha-bridge/server.js]             (class [HomeAssistantMCPServer]:
        [normalizeName], [buildEntityIndex], [resolveEntityId],
        [searchEntitiesFuzzy], [fuzzyMatch]),
      - [src/lib/cache.ts]                           (class [CacheManager]),
    followed by the properties established about them.

    Conventions of the embedding.
      - A JavaScript string is a [string]; its characters are 8-bit code
        units.  On that range [toLowerCase] only changes characters that the
        following regular expression of [normalizeName] rewrites anyway
        (the Latin-1 capitals), so lower-casing is modelled on [A-Z].
      - [undefined] / a missing property is [None]; JavaScript truthiness of
        an optional string is [truthy].
      - A [Map] or plain object whose iteration order the code relies on is
        an association list in insertion order; one that is only looked up
        is a [gmap].
      - [Date.now()] readings are explicit [Z] arguments (milliseconds). *)

From Stdlib Require Import ZArith String Ascii List Bool Lia Sorted Permutation.
From stdpp Require Import gmap strings list.
Import ListNotations.

Local Open Scope string_scope.
Local Open Scope nat_scope.

(** ** JavaScript string primitives used by the sources *)

Module Js.

Definition code (c : ascii) : nat := nat_of_ascii c.

(** [c] is matched by the character class [[a-z0-9]]. *)
Definition is_lower_alnum (c : ascii) : bool :=
  let n := code c in
  ((97 <=? n) && (n <=? 122)) || ((48 <=? n) && (n <=? 57)).

Definition lower_char (c : ascii) : ascii :=
  let n := code c in
  if (65 <=? n) && (n <=? 90) then ascii_of_nat (n + 32) else c.

(** [s.toLowerCase()] *)
Fixpoint toLowerCase (s : string) : string :=
  match s with
  | EmptyString => EmptyString
  | String c r => String (lower_char c) (toLowerCase r)
  end.

(** [s.startsWith(p)] *)
Definition startsWith (s p : string) : bool := String.prefix p s.

(** [s.includes(sub)] *)
Fixpoint includes (s sub : string) : bool :=
  String.prefix sub s ||
  match s with
  | EmptyString => false
  | String _ r => includes r sub
  end.

(** [s.split(sep)] for a one-character separator: the pieces between
    the occurrences of [sep], empty pieces included. *)
Fixpoint split (sep : ascii) (s : string) : list string :=
  match s with
  | EmptyString => [EmptyString]
  | String c r =>
      if Ascii.eqb c sep then EmptyString :: split sep r
      else match split sep r with
           | [] => [String c EmptyString]
           | w :: ws => String c w :: ws
           end
  end.

(** [l.join(sep)] *)
Definition join (sep : string) (l : list string) : string := String.concat sep l.

(** [s.replace(from, to)] with a one-character string pattern: only the
    first occurrence is replaced. *)
Fixpoint replace_first (from to : ascii) (s : string) : string :=
  match s with
  | EmptyString => EmptyString
  | String c r =>
      if Ascii.eqb c from then String to r
      else String c (replace_first from to r)
  end.

(** Truthiness of an optional string: [undefined] and [""] are falsy. *)
Definition truthy (o : option string) : bool :=
  match o with
  | Some s => negb (String.eqb s "")
  | None => false
  end.

(** [a || b] on an optional string with a string default. *)
Definition or_else (a : option string) (b : string) : string :=
  match a with
  | Some s => if String.eqb s "" then b else s
  | None => b
  end.

(** [l.filter(Boolean)] on a list of strings: drops the empty ones. *)
Definition filter_nonempty (l : list string) : list string :=
  List.filter (fun w => negb (String.eqb w "")) l.

End Js.

(** ** [normalizeName]

    [String(name).toLowerCase().replace(/[^a-z0-9]+/g, "_").replace(/^_+|_+$/g, "")]
    The guard in front ([!name] in server.js, [name == null || typeof name
    !== 'string'] in name-resolver.ts) returns [""] for everything that is
    not a non-empty string; on strings both sources agree with the chain,
    which maps [""] to [""]. *)

Definition underscore : ascii := "_"%char.

(** [.replace(/[^a-z0-9]+/g, "_")]: every maximal run of characters outside
    [[a-z0-9]] becomes one underscore.  [in_run] records that the previous
    character belonged to the run being replaced. *)
Fixpoint collapse_runs (in_run : bool) (s : string) : string :=
  match s with
  | EmptyString => EmptyString
  | String c r =>
      if Js.is_lower_alnum c then String c (collapse_runs false r)
      else if in_run then collapse_runs true r
      else String underscore (collapse_runs true r)
  end.

(** The [^_+] alternative: the leading underscores are removed. *)
Fixpoint strip_leading (s : string) : string :=
  match s with
  | EmptyString => EmptyString
  | String c r => if Ascii.eqb c underscore then strip_leading r else s
  end.

(** The [_+$] alternative: the trailing underscores are removed. *)
Fixpoint strip_trailing (s : string) : string :=
  match s with
  | EmptyString => EmptyString
  | String c r =>
      match strip_trailing r with
      | EmptyString => if Ascii.eqb c underscore then EmptyString else String c EmptyString
      | r' => String c r'
      end
  end.

(** [.replace(/^_+|_+$/g, "")] *)
Definition strip_underscores (s : string) : string :=
  strip_trailing (strip_leading s).

Definition normalizeName (name : string) : string :=
  strip_underscores (collapse_runs false (Js.toLowerCase name)).


(** ** Data model ([addons/synapseha/src/types/index.ts])

    The attribute bag [Record<string, any>] is a finite map from attribute
    names to strings: the sources read [friendly_name], [area_id], [floor]
    and [device_class] from it and use them as strings. *)

Module Entity.
Record t := mk {
  entity_id : string;
  state : string;
  attributes : gmap string string;
  (** server.js also reads [entity.device_id] where present *)
  device_id : option string;
}.
(** [entity.attributes?.k] *)
Definition attr (e : t) (k : string) : option string := attributes e !! k.
End Entity.

Module Area.
Record t := mk {
  area_id : string;
  name : string;
}.
End Area.

Module Device.
Record t := mk {
  id : string;
  name : string;
  name_by_user : option string;
  area_id : option string;
  (** the child-entity list consulted by server.js ([d.entities?.includes?.(id)]) *)
  entities : option (list string);
}.
End Device.

(** The argument object of [resolveEntityId]. *)
Module Args.
Record t := mk {
  entity_id : option string;
  name : option string;
  area : option string;
  floor : option string;
  domain : option string;
}.
End Args.

(** ** The name index

    [Map<string, string[]>] in name-resolver.ts, a plain object used as a
    dictionary in server.js.  [resolveEntityId] iterates it, so it is kept
    as an association list in insertion order with pairwise distinct keys. *)

Definition Index := list (string * list string).

(** [nameIndex.get(key)] *)
Fixpoint index_get (idx : Index) (key : string) : option (list string) :=
  match idx with
  | [] => None
  | (k, ids) :: rest => if String.eqb k key then Some ids else index_get rest key
  end.

(** [if (!nameIndex.has(key)) nameIndex.set(key, []); nameIndex.get(key).push(id)] *)
Fixpoint index_push (idx : Index) (key id : string) : Index :=
  match idx with
  | [] => [(key, [id])]
  | (k, ids) :: rest =>
      if String.eqb k key then (k, (ids ++ [id])%list) :: rest
      else (k, ids) :: index_push rest key id
  end.

(** [nameIndex.get(normalized) || []]: the candidate list of a token. *)
Definition lookup (idx : Index) (token : string) : list string :=
  match index_get idx token with
  | Some ids => ids
  | None => []
  end.

(** [[...new Set(l)]]: duplicates dropped, first occurrences kept in order. *)
Fixpoint dedup_from (seen l : list string) : list string :=
  match l with
  | [] => []
  | x :: r =>
      if existsb (String.eqb x) seen then dedup_from seen r
      else x :: dedup_from (x :: seen) r
  end.

Definition dedup (l : list string) : list string := dedup_from [] l.

(** The partial-match scan shared by both [resolveEntityId]s:
    [for (const [key, entityIds] of index) if (key.includes(normalized) ||
    normalized.includes(key)) partialMatches.push(...entityIds)]. *)
Definition partialMatches (idx : Index) (normalized : string) : list string :=
  flat_map
    (fun kv : string * list string =>
       if Js.includes (fst kv) normalized || Js.includes normalized (fst kv)
       then snd kv else [])
    idx.

(** [id.split('.').slice(1).join(' ')]: the fallback display name. *)
Definition fallback_name (id : string) : string :=
  Js.join " " (tl (Js.split "." id)).

(** [entity.attributes?.friendly_name || id.split('.').slice(1).join(' ')] *)
Definition display_name (e : Entity.t) : string :=
  Js.or_else (Entity.attr e "friendly_name") (fallback_name (Entity.entity_id e)).

(** [normalizeName(id.replace('.', ' '))]: the identifier token. *)
Definition id_token (id : string) : string :=
  normalizeName (Js.replace_first "." " " id).

(** One turn of the indexing loop body on the index. *)
Definition index_entity (idx : Index) (e : Entity.t) : Index :=
  let id := Entity.entity_id e in
  let normalized := normalizeName (display_name e) in
  let idx1 := index_push idx normalized id in
  index_push idx1 (id_token id) id.

(** [xs = ys.filter(p); if (xs.length > 0) filtered = xs]: a filter that is
    applied only when it keeps something. *)
Definition narrow (p : string -> bool) (filtered : list string) : list string :=
  match List.filter p filtered with
  | [] => filtered
  | kept => kept
  end.

(** [c.startsWith(`${domain}.`)] *)
Definition in_domain (domain : string) (c : string) : bool :=
  Js.startsWith c (domain ++ ".").

(** ** [NameResolver] (name-resolver.ts) *)

Module NameResolver.

Record t := mk {
  nameIndex : Index;
  entities : gmap string Entity.t;
  areas : gmap string Area.t;
  devices : gmap string Device.t;
}.

Definition empty : t := mk [] ∅ ∅ ∅.

(** The loop of [setEntities] over the two maps it fills. *)
Definition setEntities_loop (data : list Entity.t)
  : gmap string Entity.t * Index :=
  fold_left
    (fun (acc : gmap string Entity.t * Index) (e : Entity.t) =>
       (<[Entity.entity_id e := e]> (fst acc), index_entity (snd acc) e))
    data (∅, []).

Definition setEntities (r : t) (data : list Entity.t) : t :=
  let '(ents, idx) := setEntities_loop data in
  mk idx ents (areas r) (devices r).

Definition setAreas (r : t) (data : list Area.t) : t :=
  mk (nameIndex r) (entities r)
     (fold_left (fun m a => <[Area.area_id a := a]> m) data ∅)
     (devices r).

Definition setDevices (r : t) (data : list Device.t) : t :=
  mk (nameIndex r) (entities r) (areas r)
     (fold_left (fun m d => <[Device.id d := d]> m) data ∅).

(** The predicate of the area filter (lines 109-116). *)
Definition area_matches (r : t) (area : string) (entityId : string) : bool :=
  match entities r !! entityId with
  | None => false
  | Some entity =>
      match Entity.attr entity "area_id" with
      | None => false
      | Some entityAreaId =>
          if String.eqb entityAreaId "" then false
          else match areas r !! entityAreaId with
               | None => false
               | Some areaObj =>
                   String.eqb (normalizeName (Area.name areaObj)) (normalizeName area)
               end
      end
  end.

(** The predicate of the floor filter (lines 125-128):
    [entity?.attributes?.floor === args.floor]. *)
Definition floor_matches (r : t) (floor : string) (entityId : string) : bool :=
  match entities r !! entityId with
  | None => false
  | Some entity =>
      match Entity.attr entity "floor" with
      | None => false
      | Some f => String.eqb f floor
      end
  end.

(** The three disambiguation steps (lines 97-133). *)
Definition by_domain (a : Args.t) (filtered : list string) : list string :=
  match Args.domain a with
  | Some d => if String.eqb d "" then filtered else narrow (in_domain d) filtered
  | None => filtered
  end.

Definition by_area (r : t) (a : Args.t) (filtered : list string) : list string :=
  match Args.area a with
  | Some ar =>
      if negb (String.eqb ar "") && (1 <? List.length filtered)
      then narrow (area_matches r ar) filtered
      else filtered
  | None => filtered
  end.

Definition by_floor (r : t) (a : Args.t) (filtered : list string) : list string :=
  match Args.floor a with
  | Some fl =>
      if negb (String.eqb fl "") && (1 <? List.length filtered)
      then narrow (floor_matches r fl) filtered
      else filtered
  | None => filtered
  end.

(** [filtered[0] || null] *)
Definition first_or_null (filtered : list string) : option string :=
  match filtered with
  | [] => None
  | c :: _ => if String.eqb c "" then None else Some c
  end.

(** The candidates of a name: exact token, else the partial scan. *)
Definition candidates_of (r : t) (searchName : string) : list string :=
  let normalized := normalizeName searchName in
  match lookup (nameIndex r) normalized with
  | [] => dedup (partialMatches (nameIndex r) normalized)
  | cs => cs
  end.

Definition resolveEntityId (r : t) (a : Args.t) : option string :=
  if Js.truthy (Args.entity_id a) then Args.entity_id a
  else if negb (Js.truthy (Args.name a)) then None
  else
    match candidates_of r (Js.or_else (Args.name a) "") with
    | [] => None
    | [c] => Some c
    | candidates => first_or_null (by_floor r a (by_area r a (by_domain a candidates)))
    end.


End NameResolver.

(** ** [HomeAssistantMCPServer] (server.js) *)

(** Plain objects whose [Object.entries] / [Object.values] order matters:
    association lists in insertion order; assigning to an existing key
    keeps the key's position. *)
Fixpoint obj_get {A} (o : list (string * A)) (key : string) : option A :=
  match o with
  | [] => None
  | (k, v) :: rest => if String.eqb k key then Some v else obj_get rest key
  end.

Fixpoint obj_set {A} (o : list (string * A)) (key : string) (v : A)
  : list (string * A) :=
  match o with
  | [] => [(key, v)]
  | (k, w) :: rest =>
      if String.eqb k key then (k, v) :: rest
      else (k, w) :: obj_set rest key v
  end.

(** [arr.slice(0, end)] for an integral [end]: a negative [end] counts
    from the back. *)
Definition slice0 {A} (l : list A) (e : Z) : list A :=
  if (e <? 0)%Z then firstn (Z.to_nat (Z.of_nat (List.length l) + e)) l
  else firstn (Z.to_nat e) l.

Module Bridge.

Record t := mk {
  entities : list (string * Entity.t);
  nameIndex : Index;
  areas : gmap string Area.t;
  devices : list (string * Device.t);
  automations : list (string * Entity.t);
  scenes : list (string * Entity.t);
  scripts : list (string * Entity.t);
  indexReady : bool;
}.

Definition empty : t := mk [] [] ∅ [] [] [] [] false.

(** *** [buildEntityIndex] *)

(** What the two awaited calls at the top can deliver: [fetch] throws,
    the response is not ok, [response.json()] throws, or the entity list
    arrives. *)
Inductive states_response :=
| FetchThrows
| ResponseNotOk
| JsonThrows
| States (data : list Entity.t).

Definition categorize (pre : string) (id : string) (ent : Entity.t)
           (o : list (string * Entity.t)) : list (string * Entity.t) :=
  if Js.startsWith id pre then obj_set o id ent else o.

(** Lines 223-264: the five objects are replaced by fresh ones and
    filled; there is no [await] in this stretch.  (The [snapshot] copy
    stored with each entity repeats fields of the entity and is left out.) *)
Definition rebuild_step (s : t) (ent : Entity.t) : t :=
  let id := Entity.entity_id ent in
  mk (obj_set (entities s) id ent)
     (index_entity (nameIndex s) ent)
     (areas s) (devices s)
     (categorize "automation." id ent (automations s))
     (categorize "scene." id ent (scenes s))
     (categorize "script." id ent (scripts s))
     (indexReady s).

Definition rebuild (s : t) (data : list Entity.t) : t :=
  let cleared := mk [] [] (areas s) (devices s) [] [] [] (indexReady s) in
  let filled := fold_left rebuild_step data cleared in
  mk (entities filled) (nameIndex filled) (areas filled) (devices filled)
     (automations filled) (scenes filled) (scripts filled) true.

(** The part of [buildEntityIndex] up to [indexReady = true]. *)
Definition buildEntityIndex (s : t) (resp : states_response) : t :=
  match resp with
  | States data => rebuild s data
  | FetchThrows | ResponseNotOk | JsonThrows => s
  end.

(** [fetchAreas] / [fetchDevices]: on an ok response the object is
    replaced, otherwise nothing changes. *)
Definition fetchAreas (s : t) (resp : option (list Area.t)) : t :=
  match resp with
  | Some data =>
      mk (entities s) (nameIndex s)
         (fold_left (fun m a => <[Area.area_id a := a]> m) data ∅)
         (devices s) (automations s) (scenes s) (scripts s) (indexReady s)
  | None => s
  end.

Definition fetchDevices (s : t) (resp : option (list Device.t)) : t :=
  match resp with
  | Some data =>
      mk (entities s) (nameIndex s) (areas s)
         (fold_left (fun o d => obj_set o (Device.id d) d) data [])
         (automations s) (scenes s) (scripts s) (indexReady s)
  | None => s
  end.

(** *** [resolveEntityId] (lines 1000-1058) *)

Definition area_matches (s : t) (area : string) (entityId : string) : bool :=
  match obj_get (entities s) entityId with
  | None => false
  | Some entity =>
      match Entity.attr entity "area_id" with
      | None => false
      | Some entityArea =>
          if String.eqb entityArea "" then false
          else match areas s !! entityArea with
               | None => false
               | Some areaObj =>
                   String.eqb (normalizeName (Area.name areaObj)) (normalizeName area)
               end
      end
  end.

Definition floor_matches (s : t) (floor : string) (entityId : string) : bool :=
  match obj_get (entities s) entityId with
  | None => false
  | Some entity =>
      match Entity.attr entity "floor" with
      | None => false
      | Some f => String.eqb f floor
      end
  end.

Definition by_domain (a : Args.t) (filtered : list string) : list string :=
  match Args.domain a with
  | Some d => if String.eqb d "" then filtered else narrow (in_domain d) filtered
  | None => filtered
  end.

Definition by_area (s : t) (a : Args.t) (filtered : list string) : list string :=
  match Args.area a with
  | Some ar =>
      if negb (String.eqb ar "") && (1 <? List.length filtered)
      then narrow (area_matches s ar) filtered
      else filtered
  | None => filtered
  end.

Definition by_floor (s : t) (a : Args.t) (filtered : list string) : list string :=
  match Args.floor a with
  | Some fl =>
      if negb (String.eqb fl "") && (1 <? List.length filtered)
      then narrow (floor_matches s fl) filtered
      else filtered
  | None => filtered
  end.

Definition candidates_of (s : t) (searchName : string) : list string :=
  let normalized := normalizeName searchName in
  match lookup (nameIndex s) normalized with
  | [] => dedup (partialMatches (nameIndex s) normalized)
  | cs => cs
  end.

Definition resolveEntityId (s : t) (a : Args.t) : option string :=
  if Js.truthy (Args.entity_id a) then Args.entity_id a
  else if negb (Js.truthy (Args.name a)) && negb (Js.truthy (Args.area a)) then None
  else
    let searchName :=
      if Js.truthy (Args.name a) then Js.or_else (Args.name a) ""
      else Js.or_else (Args.area a) "" in
    match candidates_of s searchName with
    | [] => None
    | [c] => Some c
    | candidates => hd_error (by_floor s a (by_area s a (by_domain a candidates)))
    end.

(** *** [fuzzyMatch] (lines 2512-2525) *)

(** [str1[i] !== str2[i]]; an index past the end reads [undefined]. *)
Definition differs_at (str1 str2 : string) (i : nat) : bool :=
  match String.get i str1, String.get i str2 with
  | Some a, Some b => negb (Ascii.eqb a b)
  | None, None => false
  | _, _ => true
  end.

(** The [for] loop: [todo] iterations remain, the next index is [i]. *)
Fixpoint fuzzy_loop (str1 str2 : string) (todo i differences : nat) : bool :=
  match todo with
  | O => differences <=? 2
  | S todo' =>
      let differences' :=
        if differs_at str1 str2 i then S differences else differences in
      if 2 <? differences' then false
      else fuzzy_loop str1 str2 todo' (S i) differences'
  end.

Definition abs_diff (a b : nat) : nat := (a - b) + (b - a).

Definition fuzzyMatch (str1 str2 : string) : bool :=
  if 2 <? abs_diff (String.length str1) (String.length str2) then false
  else
    let maxLen := Nat.max (String.length str1) (String.length str2) in
    fuzzy_loop str1 str2 maxLen 0 0.

(** *** [searchEntitiesFuzzy] (lines 2324-2510) *)

Module SearchArgs.
Record t := mk {
  query : option string;
  limit : option Z;
  domain_hint : option string;
  area_hint : option string;
}.
End SearchArgs.

(** One element of [scored]. *)
Module Hit.
Record t := mk {
  entity_id : string;
  friendly_name : string;
  domain : string;
  state : string;
  device_class : option string;
  device : option string;
  area : option string;
  score : Z;
  relevance : string;
}.
End Hit.

Local Open Scope Z_scope.

(** [entity.attributes?.friendly_name || id] *)
Definition search_name (id : string) (entity : Entity.t) : string :=
  Js.or_else (Entity.attr entity "friendly_name") id.

(** [normalized.split("_").filter(Boolean)] *)
Definition words (normalized : string) : list string :=
  Js.filter_nonempty (Js.split "_" normalized).

(** The exact-match signal (lines 2345-2350). *)
Definition is_exact (normalizedName normalizedId normalizedQuery : string) : bool :=
  String.eqb normalizedName normalizedQuery || String.eqb normalizedId normalizedQuery.

(** The starts-with signal (lines 2353-2358). *)
Definition is_prefix (normalizedName normalizedId normalizedQuery : string) : bool :=
  Js.startsWith normalizedName normalizedQuery || Js.startsWith normalizedId normalizedQuery.

Definition exact_score (nn ni nq : string) : Z := if is_exact nn ni nq then 1000 else 0.
Definition prefix_score (nn ni nq : string) : Z := if is_prefix nn ni nq then 500 else 0.

(** The two contains signals (lines 2361-2366). *)
Definition contains_score (nn ni nq : string) : Z :=
  (if Js.includes nn nq then 250 else 0) + (if Js.includes ni nq then 200 else 0).

(** The [if / else if] chain on one word pair (lines 2374-2378 and
    2381-2384), with the four weights of the name or of the id. *)
Definition word_score (w_eq w_pre w_in w_fuzzy : Z) (word qWord : string) : Z :=
  if String.eqb word qWord then w_eq
  else if Js.startsWith word qWord then w_pre
  else if Js.includes word qWord then w_in
  else if fuzzyMatch word qWord then w_fuzzy
  else 0.

Definition sumZ (l : list Z) : Z := fold_right Z.add 0 l.

(** The word-by-word loops (lines 2372-2386). *)
Definition token_score (nn ni : string) (queryWords : list string) : Z :=
  let nameWords := words nn in
  let idWords := words ni in
  sumZ (List.map
          (fun qWord =>
             sumZ (List.map (fun nWord => word_score 100 50 25 15 nWord qWord) nameWords)
             + sumZ (List.map (fun iWord => word_score 80 40 20 10 iWord qWord) idWords))
          queryWords).

(** [Object.values(this.devices).find((d) => d.entities?.includes?.(id))] *)
Definition owning_device (s : t) (id : string) : option Device.t :=
  List.find
    (fun d : Device.t =>
       match Device.entities d with
       | Some l => existsb (String.eqb id) l
       | None => false
       end)
    (List.map snd (devices s)).

(** [o && this.areas[o]] for an optional area id. *)
Definition area_of_id (s : t) (o : option string) : option Area.t :=
  match o with
  | Some a => if String.eqb a "" then None else areas s !! a
  | None => None
  end.

(** The area an entity belongs to as the area-hint bonus computes it
    (lines 2396-2409): the entity's own [area_id] attribute, else the
    area of the device that lists the entity. *)
Definition entity_area (s : t) (id : string) (entity : Entity.t) : option Area.t :=
  match area_of_id s (Entity.attr entity "area_id") with
  | Some a => Some a
  | None =>
      match owning_device s id with
      | Some device => area_of_id s (Device.area_id device)
      | None => None
      end
  end.

Definition domain_bonus (a : SearchArgs.t) (id : string) : Z :=
  match SearchArgs.domain_hint a with
  | Some d => if negb (String.eqb d "") && in_domain d id then 150 else 0
  | None => 0
  end.

Definition area_bonus (s : t) (a : SearchArgs.t) (id : string) (entity : Entity.t) : Z :=
  match SearchArgs.area_hint a with
  | Some h =>
      if String.eqb h "" then 0
      else match entity_area s id entity with
           | Some entityArea =>
               if String.eqb (normalizeName (Area.name entityArea)) (normalizeName h)
               then 150 else 0
           | None => 0
           end
  | None => 0
  end.

Definition unavailable_penalty (entity : Entity.t) : Z :=
  if String.eqb (Entity.state entity) "unavailable"
     || String.eqb (Entity.state entity) "unknown"
  then -50 else 0.

(** Everything the loop body adds apart from the exact and the
    starts-with signal. *)
Definition other_signals (s : t) (a : SearchArgs.t) (nq : string)
           (id : string) (entity : Entity.t) : Z :=
  let nn := normalizeName (search_name id entity) in
  let ni := normalizeName id in
  contains_score nn ni nq + token_score nn ni (words nq)
  + domain_bonus a id + area_bonus s a id entity + unavailable_penalty entity.

(** [score] at line 2423. *)
Definition score_of (s : t) (a : SearchArgs.t) (nq : string)
           (id : string) (entity : Entity.t) : Z :=
  let nn := normalizeName (search_name id entity) in
  let ni := normalizeName id in
  exact_score nn ni nq + prefix_score nn ni nq + other_signals s a nq id entity.

Definition relevance_of (score : Z) : string :=
  if 500 <=? score then "high" else if 100 <=? score then "medium" else "low".

(** [deviceInfo] and [areaInfo] of a reported entity (lines 2425-2443). *)
Definition device_info (s : t) (id : string) (entity : Entity.t) : option Device.t :=
  match Entity.device_id entity with
  | Some d =>
      if String.eqb d "" then owning_device s id
      else match obj_get (devices s) d with
           | Some dev => Some dev
           | None => owning_device s id
           end
  | None => owning_device s id
  end.

Definition area_info (s : t) (id : string) (entity : Entity.t) : option Area.t :=
  match area_of_id s (Entity.attr entity "area_id") with
  | Some a => Some a
  | None =>
      match device_info s id entity with
      | Some dev => area_of_id s (Device.area_id dev)
      | None => None
      end
  end.

Definition hit_of (s : t) (a : SearchArgs.t) (nq : string)
           (kv : string * Entity.t) : Hit.t :=
  let '(id, entity) := kv in
  let score := score_of s a nq id entity in
  Hit.mk id (search_name id entity) (hd "" (Js.split "." id)) (Entity.state entity)
         (Entity.attr entity "device_class")
         (option_map (fun d => Js.or_else (Device.name_by_user d) (Device.name d))
                     (device_info s id entity))
         (option_map Area.name (area_info s id entity))
         score (relevance_of score).

(** The [scored] array before sorting: the entities with a positive
    score, in [Object.entries] order. *)
Definition scored (s : t) (a : SearchArgs.t) (nq : string) : list Hit.t :=
  List.filter (fun h => 0 <? Hit.score h) (List.map (hit_of s a nq) (entities s)).

(** [scored.sort((a, b) => b.score - a.score)]: [Array.prototype.sort] is
    stable, so the result is the one permutation that is descending by
    score and keeps equal scores in their original order. *)
Fixpoint sort_insert (h : Hit.t) (sorted : list Hit.t) : list Hit.t :=
  match sorted with
  | [] => [h]
  | x :: rest =>
      if Hit.score h <? Hit.score x then x :: sort_insert h rest
      else h :: sorted
  end.

Definition sort_by_score (l : list Hit.t) : list Hit.t :=
  fold_right sort_insert [] l.

(** The [results] array of the reply, or the thrown error.  (The
    [suggestions] strings added to sparse replies are presentation and
    are not modelled.) *)
Definition searchEntitiesFuzzy (s : t) (a : SearchArgs.t) : string + list Hit.t :=
  if negb (Js.truthy (SearchArgs.query a)) then inl "query is required"
  else
    let normalizedQuery := normalizeName (Js.or_else (SearchArgs.query a) "") in
    let limit := match SearchArgs.limit a with Some n => n | None => 10 end in
    inr (slice0 (sort_by_score (scored s a normalizedQuery)) limit).

End Bridge.

(** ** [CacheManager] (src/lib/cache.ts)

    The payload type [T] stands for the JSON values the cache carries, so
    that writing a record to the durable tier and parsing it back yields
    the record itself.  [null] is a value of its own next to them.  The
    durable tier maps a key to the content of [<cacheDir>/<key>.json];
    a file that is missing or does not parse to a record takes the
    [catch] branch of [get]. *)

Module CacheManager.
Section WithPayload.

Context {T E Env : Type}.

Local Open Scope Z_scope.

(** [T | null] *)
Inductive data := Null | Value (v : T).

(** [CachedData<T>] *)
Record CachedData := mkCached {
  cached_data : data;
  timestamp : Z;
  ttl : Z;
}.

Inductive file :=
| Parsed (c : CachedData)
| Malformed.

Record t := mk {
  cacheTTL : Z;
  memoryCache : gmap string CachedData;
  disk : gmap string file;
  refreshCallbacks : gset string;
  refreshTimers : gset string;
}.

(** [new CacheManager(cacheDir, cacheTTL = 60000)] over a given directory
    content. *)
Definition create (cacheTTL : option Z) (files : gmap string file) : t :=
  mk (match cacheTTL with Some n => n | None => 60000 end) ∅ files ∅ ∅.

(** [Date.now() - c.timestamp < c.ttl] *)
Definition fresh (now : Z) (c : CachedData) : bool :=
  now - timestamp c <? ttl c.

(** How [fs.writeFile] / [fs.unlink] / the directory sweep ends. *)
Inductive io_result := Done | Failed.

(** What the awaited [fetchFn()] does: it resolves to a value or rejects,
    and it acts on the world outside the cache. *)
Inductive fetched := Resolves (d : data) | Rejects (err : E).

Definition fetcher := Env -> fetched * Env.

Definition with_memory (c : t) (m : gmap string CachedData) : t :=
  mk (cacheTTL c) m (disk c) (refreshCallbacks c) (refreshTimers c).

Definition with_disk (c : t) (d : gmap string file) : t :=
  mk (cacheTTL c) (memoryCache c) d (refreshCallbacks c) (refreshTimers c).

(** The durable-tier half of [get] (lines 40-53), read at time [now]. *)
Definition get_disk (c : t) (key : string) (now : Z) : data * t :=
  match disk c !! key with
  | Some (Parsed cached) =>
      if fresh now cached
      then (cached_data cached, with_memory c (<[key := cached]> (memoryCache c)))
      else (Null, c)
  | Some Malformed | None => (Null, c)
  end.

(** [get(key)]: [now_mem] is the clock reading of the in-memory check,
    [now_disk] the one taken after the file has been read. *)
Definition get (c : t) (key : string) (now_mem now_disk : Z) : data * t :=
  match memoryCache c !! key with
  | Some memoryCached =>
      if fresh now_mem memoryCached then (cached_data memoryCached, c)
      else get_disk c key now_disk
  | None => get_disk c key now_disk
  end.

(** The default parameter [ttl = this.cacheTTL]. *)
Definition stored_ttl (c : t) (ttl : option Z) : Z :=
  match ttl with Some n => n | None => cacheTTL c end.

(** [set(key, data, ttl = this.cacheTTL)] at time [now]; [w] tells whether
    the file was written. *)
Definition set (c : t) (key : string) (d : data) (ttl : option Z)
           (now : Z) (w : io_result) : t :=
  let cached := mkCached d now (stored_ttl c ttl) in
  let c1 := with_memory c (<[key := cached]> (memoryCache c)) in
  match w with
  | Done => with_disk c1 (<[key := Parsed cached]> (disk c1))
  | Failed => c1
  end.

(** The environment of one [getOrFetch] call: the clock readings of its
    [get] and of its [set], and the fate of the file write. *)
Record timing := mkTiming {
  now_mem : Z;
  now_disk : Z;
  now_set : Z;
  write : io_result;
}.

(** [getOrFetch(key, fetchFn, ttl)]: the outcome is the returned value or
    the rejection, together with the cache and the world afterwards. *)
Definition getOrFetch (c : t) (key : string) (fetchFn : fetcher)
           (ttl : option Z) (tm : timing) (env : Env) : (E + data) * t * Env :=
  let '(cached, c1) := get c key (now_mem tm) (now_disk tm) in
  match cached with
  | Value _ => (inr cached, c1, env)
  | Null =>
      let '(r, env1) := fetchFn env in
      match r with
      | Rejects err => (inl err, c1, env1)
      | Resolves d => (inr d, set c1 key d ttl (now_set tm) (write tm), env1)
      end
  end.

(** [registerAutoRefresh(key, fetchFn, interval)]: callback and timer are
    recorded under the key. *)
Definition registerAutoRefresh (c : t) (key : string) : t :=
  mk (cacheTTL c) (memoryCache c) (disk c)
     ({[key]} ∪ refreshCallbacks c) ({[key]} ∪ refreshTimers c).

(** One firing of the interval callback (lines 105-112). *)
Definition refresh_tick (c : t) (key : string) (fetchFn : fetcher)
           (now : Z) (w : io_result) (env : Env) : t * Env :=
  let '(r, env1) := fetchFn env in
  match r with
  | Resolves d => (set c key d (Some (cacheTTL c)) now w, env1)
  | Rejects _ => (c, env1)
  end.

(** [invalidate(key)]; a failing [unlink] is ignored. *)
Definition invalidate (c : t) (key : string) (u : io_result) : t :=
  let c1 := with_memory c (delete key (memoryCache c)) in
  match u with
  | Done => with_disk c1 (delete key (disk c1))
  | Failed => c1
  end.


(** [shutdown()] *)
Definition shutdown (c : t) : t :=
  mk (cacheTTL c) (memoryCache c) (disk c) (refreshCallbacks c) ∅.

(** Neither tier holds a fresh record for [key] at the readings of a [get]. *)
Definition misses (c : t) (key : string) (now_mem now_disk : Z) : Prop :=
  (forall m, memoryCache c !! key = Some m -> fresh now_mem m = false) /\
  (forall d, disk c !! key = Some (Parsed d) -> fresh now_disk d = false).


End WithPayload.

Arguments data : clear implicits.
Arguments CachedData : clear implicits.
Arguments file : clear implicits.
Arguments t : clear implicits.
Arguments fetched : clear implicits.
Arguments fetcher : clear implicits.

End CacheManager.

(** ** The single-threaded event loop

    JavaScript runs a callback or the stretch of an [async] function
    between two [await]s to completion before anything else runs.  Such a
    stretch is a [turn]: it transforms the shared state and may report an
    observation.  A task is the list of its turns, and a schedule is an
    interleaving of the turns of the tasks in flight. *)

Module EventLoop.
Section Loop.

Context {S Obs : Type}.

Definition turn := S -> S * option Obs.




(** A turn that only reads the state. *)
Definition observe (f : S -> Obs) : turn := fun s => (s, Some (f s)).

End Loop.
End EventLoop.

(** An observation of the index: the token asked for and the candidate
    list it got. *)
Definition sighting := (string * list string)%type.

(** *** The refresh of name-resolver.ts (ha-client.ts, lines 143-148)

    [async () => { const newEntities = await haClient.getStates();
    fuzzySearcher.setEntities(newEntities);
    nameResolver.setEntities(newEntities); return newEntities; }]
    The first turn issues the request; the second one runs only when the
    request resolved, and it consists of the two synchronous [setEntities]
    calls. *)

Module ResolverLoop.

Definition lookup_turn (token : string) : @EventLoop.turn NameResolver.t sighting :=
  EventLoop.observe (fun r => (token, lookup (NameResolver.nameIndex r) token)).


End ResolverLoop.

(** *** [buildEntityIndex] of server.js as a task

    The turns end at [await fetch(url)], [await response.json()],
    [await this.fetchAreas()] and [await this.fetchDevices()]; the last
    turn saves the cache files and leaves the state alone. *)

Module BridgeLoop.

Definition lookup_turn (token : string) : @EventLoop.turn Bridge.t sighting :=
  EventLoop.observe (fun s => (token, lookup (Bridge.nameIndex s) token)).


End BridgeLoop.

(** ** Auxiliary notions used in the proofs *)

(** The shape of the output of the first [replace]: characters of
    [[a-z0-9]] and single underscores; [after_us] tells that the character
    in front was an underscore. *)
Fixpoint tidy (after_us : bool) (s : string) : bool :=
  match s with
  | EmptyString => true
  | String c r =>
      if Js.is_lower_alnum c then tidy false r
      else Ascii.eqb c underscore && negb after_us && tidy true r
  end.

(** A string that does not begin with an underscore. *)
Definition clean_head (s : string) : bool :=
  match s with
  | EmptyString => true
  | String c _ => negb (Ascii.eqb c underscore)
  end.


(** *** Ranking of search hits *)

Module Ranking.
Import Bridge.

(** The normalized name and identifier the scoring loop compares with
    the query. *)
Definition normalized_name (kv : string * Entity.t) : string :=
  normalizeName (search_name (fst kv) (snd kv)).

Definition normalized_id (kv : string * Entity.t) : string :=
  normalizeName (fst kv).

(** The candidate's normalized name or identifier equals the query. *)
Definition exact_match (nq : string) (kv : string * Entity.t) : bool :=
  is_exact (normalized_name kv) (normalized_id kv) nq.

(** The candidate starts with the query without being equal to it. *)
Definition prefix_only (nq : string) (kv : string * Entity.t) : bool :=
  is_prefix (normalized_name kv) (normalized_id kv) nq
  && negb (is_exact (normalized_name kv) (normalized_id kv) nq).

(** The sorted array before [slice]. *)
Definition ranking (s : Bridge.t) (a : SearchArgs.t) (nq : string) : list Hit.t :=
  sort_by_score (scored s a nq).

(** [ha] is ranked strictly above [hb] in [l]: wherever [hb] stands, [ha]
    stands in front of it. *)
Definition ranked_above (l : list Hit.t) (ha hb : Hit.t) : Prop :=
  forall l1 l2, l = (l1 ++ hb :: l2)%list -> In ha l1.

Definition descending (l : list Hit.t) : Prop :=
  StronglySorted (fun x y => (Hit.score y <= Hit.score x)%Z) l.

(** The ranking property as the specification words it, for one registry
    and one argument object: every exact match is reported and stands
    above every reported prefix-only match. *)
Definition exact_outranks_prefix (s : Bridge.t) (a : SearchArgs.t) : Prop :=
  forall q, SearchArgs.query a = Some q -> q <> "" ->
  forall ka kb,
    In ka (entities s) -> In kb (entities s) ->
    exact_match (normalizeName q) ka = true ->
    prefix_only (normalizeName q) kb = true ->
    ranked_above (ranking s a (normalizeName q))
                 (hit_of s a (normalizeName q) ka) (hit_of s a (normalizeName q) kb).

End Ranking.

(** *** Lookups next to a rebuild *)



(** ** Example registries *)

Module Examples.

Definition attrs (l : list (string * string)) : gmap string string :=
  list_to_map l.

(** Two fans with the same friendly name.  The den fan carries its area
    as an attribute; the bedroom fan has no [area_id] attribute and is
    placed in the bedroom through the device that lists it. *)
Definition den_fan : Entity.t :=
  Entity.mk "fan.den_fan" "on"
    (attrs [("friendly_name", "Fan"); ("area_id", "den")]) None.

Definition bedroom_fan : Entity.t :=
  Entity.mk "fan.bedroom_fan" "off" (attrs [("friendly_name", "Fan")]) None.

Definition fan_areas : list Area.t :=
  [Area.mk "den" "Den"; Area.mk "bedroom" "Bedroom"].

Definition fan_devices : list Device.t :=
  [Device.mk "dev1" "Ceiling fan" None (Some "bedroom") (Some ["fan.bedroom_fan"])].

Definition fans_resolver : NameResolver.t :=
  NameResolver.setAreas
    (NameResolver.setDevices
       (NameResolver.setEntities NameResolver.empty [den_fan; bedroom_fan])
       fan_devices)
    fan_areas.

Definition fans_server : Bridge.t :=
  Bridge.fetchDevices
    (Bridge.fetchAreas
       (Bridge.buildEntityIndex Bridge.empty (Bridge.States [den_fan; bedroom_fan]))
       (Some fan_areas))
    (Some fan_devices).

Definition bedroom_fan_query : Args.t :=
  Args.mk None (Some "fan") (Some "bedroom") None None.

(** A query that names an identifier no registry above knows. *)
Definition explicit_query : Args.t :=
  Args.mk (Some "light.not_there") (Some "fan") (Some "bedroom") (Some "1") (Some "fan").

Definition kitchen_light : Entity.t :=
  Entity.mk "light.kitchen_main" "on" (attrs [("friendly_name", "Kitchen Light")]) None.

(** A switch whose friendly name is exactly "Light", and a light whose
    name and identifier repeat the word. *)
Definition porch_switch : Entity.t :=
  Entity.mk "switch.porch" "on" (attrs [("friendly_name", "Light")]) None.

Definition light_row : Entity.t :=
  Entity.mk "light.light_light_light" "on"
    (attrs [("friendly_name", "Light Light Light Light Light Light")]) None.

Definition lights_server : Bridge.t :=
  Bridge.buildEntityIndex Bridge.empty (Bridge.States [porch_switch; light_row]).

Definition light_search : Bridge.SearchArgs.t :=
  Bridge.SearchArgs.mk (Some "light") None None None.

(** A lamp named exactly "Lamp" and one whose name goes on. *)
Definition desk_lamp : Entity.t :=
  Entity.mk "light.desk" "on" (attrs [("friendly_name", "Lamp")]) None.

Definition lamp_left : Entity.t :=
  Entity.mk "light.lamp_left" "on" (attrs [("friendly_name", "Lamp Left")]) None.

Definition lamps_server : Bridge.t :=
  Bridge.buildEntityIndex Bridge.empty (Bridge.States [lamp_left; desk_lamp]).

Definition lamp_search : Bridge.SearchArgs.t :=
  Bridge.SearchArgs.mk (Some "Lamp") (Some 5%Z) None None.

(** A cache over an empty directory, and a fetch function that always
    rejects; the world it acts on counts its invocations. *)
Definition fresh_cache : CacheManager.t string :=
  CacheManager.create (Some 1000%Z) ∅.

Definition failing_fetch : CacheManager.fetcher string string nat :=
  fun calls => (CacheManager.Rejects "HTTP 503", S calls).

Definition null_fetch : CacheManager.fetcher string string nat :=
  fun calls => (CacheManager.Resolves CacheManager.Null, S calls).

Definition at_start : CacheManager.timing :=
  CacheManager.mkTiming 0 0 0 CacheManager.Done.

(** Two fans named alike whose areas are both recorded as attributes. *)
Definition attic_fan : Entity.t :=
  Entity.mk "fan.attic_fan" "off"
    (attrs [("friendly_name", "Fan"); ("area_id", "attic")]) None.

Definition attic_areas : list Area.t :=
  [Area.mk "den" "Den"; Area.mk "attic" "The Attic"].

Definition attic_query : Args.t :=
  Args.mk None (Some "fan") (Some "the attic") None None.

End Examples.

(** ** Further auxiliary notions *)


(** A word that [filter(Boolean)] keeps. *)
Definition nonempty (w : string) : bool := negb (String.eqb w "").




(** A query that gives a name and nothing else. *)
Definition by_name (name : string) : Args.t :=
  Args.mk None (Some name) None None None.

(** The resolver and the server after loading the same registry. *)
Definition loaded_resolver (r0 : NameResolver.t) (data : list Entity.t)
           (areas : list Area.t) (devices : list Device.t) : NameResolver.t :=
  NameResolver.setAreas
    (NameResolver.setDevices (NameResolver.setEntities r0 data) devices) areas.


(** ** Enumeration order of a plain object

    [Object.entries] of an object lists the keys that are array indices
    (canonical decimal numerals up to 2^32 - 2) first, in ascending
    numeric order, and the other string keys after them in insertion
    order.  The objects whose keys are entity identifiers or name tokens
    are enumerated in insertion order above; the grouping object of
    [exploreEntities] is keyed by free-form strings such as states, for
    which the whole rule is modelled. *)

Module JsObject.




Section Entries.
Context {A : Type}.






(** [arr.sort((a, b) => measure(b) - measure(a))]: stable, descending. *)
Fixpoint sort_insert (measure : A -> Z) (x : A) (sorted : list A) : list A :=
  match sorted with
  | [] => [x]
  | y :: rest =>
      if (measure x <? measure y)%Z then y :: sort_insert measure x rest
      else x :: sorted
  end.


End Entries.
End JsObject.

(** ** The service tools of server.js (lines 1060-1275) *)

Module BridgeTools.

(** What the requests of one [buildEntityIndex] run deliver. *)
Record index_fetch := mkFetch {
  states : Bridge.states_response;
  areas : option (list Area.t);
  devices : option (list Device.t);
}.

(** [await this.buildEntityIndex()] as a whole: the rebuild followed by
    [fetchAreas] and [fetchDevices], or nothing when the states could not
    be had. *)
Definition buildEntityIndex (s : Bridge.t) (f : index_fetch) : Bridge.t :=
  match states f with
  | Bridge.States data =>
      Bridge.fetchDevices (Bridge.fetchAreas (Bridge.rebuild s data) (areas f)) (devices f)
  | _ => s
  end.

(** The request [callService] posts: [/api/services/<domain>/<service>]
    with [entity_id] in the payload when one was resolved. *)
Record call := mkCall {
  call_domain : option string;
  call_service : string;
  target : option string;
}.

(** [callService(args)] up to the request (lines 1060-1071): the target is
    resolved, and when that fails for a query with a name or an area the
    index is rebuilt once and the target resolved again. *)
Definition callService (s : Bridge.t) (a : Args.t) (service : string) (f : index_fetch)
  : call * Bridge.t :=
  let entity_id := Bridge.resolveEntityId s a in
  let '(entity_id, s1) :=
    if negb (Js.truthy entity_id) && (Js.truthy (Args.name a) || Js.truthy (Args.area a))
    then (Bridge.resolveEntityId (buildEntityIndex s f) a, buildEntityIndex s f)
    else (entity_id, s) in
  (mkCall (Args.domain a) service (if Js.truthy entity_id then entity_id else None), s1).

(** [turnOn] / [turnOff] (lines 1249-1275): the entity is resolved first,
    the service domain is read off its identifier, and [callService] gets
    the identifier as an explicit one. *)
Definition turn (service : string) (s : Bridge.t) (a : Args.t) (f : index_fetch)
  : string + call * Bridge.t :=
  match Bridge.resolveEntityId s a with
  | Some entity_id =>
      if String.eqb entity_id ""
      then inl "Could not resolve entity from provided parameters"
      else
        let domain := hd "" (Js.split "." entity_id) in
        inr (callService s (Args.mk (Some entity_id) None None None (Some domain)) service f)
  | None => inl "Could not resolve entity from provided parameters"
  end.

Definition turnOn := turn "turn_on".
Definition turnOff := turn "turn_off".

End BridgeTools.

(** ** [exploreEntities] (server.js, lines 1795-1951) *)

Module Explore.

Record args := mkArgs {
  domain : option string;
  area : option string;
  device_class : option string;
  state : option string;
  search : option string;
  group_by : option string;
  include_unavailable : option bool;
  limit : option Z;
}.

(** One element of [filtered].  (The [last_updated] and [attributes]
    fields, which are passed through untouched, are left out.) *)
Record row := mkRow {
  entity_id : string;
  row_domain : string;
  friendly_name : string;
  row_state : string;
  row_device_class : option string;
  (** [{ id, name }] *)
  device : option (string * string);
  (** [{ id, name }] *)
  row_area : option (string * string);
}.

Definition row_of (s : Bridge.t) (kv : string * Entity.t) : row :=
  let '(id, entity) := kv in
  mkRow id (hd "" (Js.split "." id)) (Js.or_else (Entity.attr entity "friendly_name") id)
        (Entity.state entity) (Entity.attr entity "device_class")
        (option_map (fun d => (Device.id d, Js.or_else (Device.name_by_user d) (Device.name d)))
                    (Bridge.device_info s id entity))
        (option_map (fun ar => (Area.area_id ar, Area.name ar))
                    (Bridge.area_info s id entity)).

(** [if (x) filtered = filtered.filter(p(x))] for an optional string. *)
Definition filter_if (o : option string) (p : string -> row -> bool) (l : list row)
  : list row :=
  match o with
  | Some x => if String.eqb x "" then l else List.filter (p x) l
  | None => l
  end.

Definition in_area (area : string) (e : row) : bool :=
  match row_area e with
  | Some (_, name) => String.eqb (normalizeName name) (normalizeName area)
  | None => false
  end.

Definition has_class (dc : string) (e : row) : bool :=
  match row_device_class e with
  | Some c => String.eqb c dc
  | None => false
  end.

Definition available (e : row) : bool :=
  negb (String.eqb (row_state e) "unavailable") && negb (String.eqb (row_state e) "unknown").

Definition found_by (search : string) (e : row) : bool :=
  Js.includes (normalizeName (friendly_name e)) (normalizeName search)
  || Js.includes (normalizeName (entity_id e)) (normalizeName search).

Definition with_unavailable (a : args) : bool :=
  match include_unavailable a with Some b => b | None => false end.

(** The filter chain and the limit (lines 1852-1887). *)
Definition filtered (s : Bridge.t) (a : args) : list row :=
  let l := List.map (row_of s) (Bridge.entities s) in
  let l := filter_if (domain a) (fun d e => String.eqb (row_domain e) d) l in
  let l := filter_if (area a) in_area l in
  let l := filter_if (device_class a) has_class l in
  let l := filter_if (state a) (fun st e => String.eqb (row_state e) st) l in
  let l := if with_unavailable a then l else List.filter available l in
  let l := filter_if (search a) found_by l in
  slice0 l (match limit a with Some n => n | None => 50%Z end).









End Explore.

(** ** More example registries *)

Module MoreExamples.




(** A server that has not indexed anything yet, and what the next
    request for the states will deliver. *)
Definition fans_fetch : BridgeTools.index_fetch :=
  BridgeTools.mkFetch (Bridge.States [Examples.den_fan; Examples.bedroom_fan])
    (Some Examples.fan_areas) (Some Examples.fan_devices).

End MoreExamples.

(** ** Auxiliary notions for the grouping *)




(** * Properties *)

(** ** Normalization *)

Module NormalizeFacts.


Ltac unfold_step :=
  cbn [tidy collapse_runs strip_leading strip_trailing Js.toLowerCase Js.replace_first].
Ltac unfold_step_all :=
  cbn [tidy collapse_runs strip_leading strip_trailing Js.toLowerCase Js.replace_first] in *.

Lemma lower_char_alnum c : Js.is_lower_alnum c = true -> Js.lower_char c = c.
Proof.
  destruct c as [[] [] [] [] [] [] [] []]; vm_compute; congruence.
Qed.

Lemma lower_char_underscore : Js.lower_char underscore = underscore.
Proof. reflexivity. Qed.

Lemma underscore_not_alnum : Js.is_lower_alnum underscore = false.
Proof. reflexivity. Qed.

Lemma tidy_weaken s : tidy true s = true -> tidy false s = true.
Proof.
  destruct s as [|c r]; unfold_step; [easy|].
  destruct (Js.is_lower_alnum c); [easy|].
  rewrite andb_false_r. unfold_step. discriminate.
Qed.

Lemma collapse_runs_tidy s : forall b, tidy b (collapse_runs b s) = true.
Proof.
  induction s as [|c r IH]; intros b; unfold_step; [reflexivity|].
  destruct (Js.is_lower_alnum c) eqn:Hc; unfold_step.
  - rewrite Hc. apply IH.
  - destruct b; unfold_step.
    + apply IH.
    + apply IH.
Qed.

Lemma tidy_lower s : forall b, tidy b s = true -> Js.toLowerCase s = s.
Proof.
  induction s as [|c r IH]; intros b H; unfold_step_all; [reflexivity|].
  destruct (Js.is_lower_alnum c) eqn:Hc.
  - rewrite (lower_char_alnum c Hc). f_equal. eauto.
  - apply andb_prop in H as [H Hr]. apply andb_prop in H as [Hus _].
    apply Ascii.eqb_eq in Hus. subst c.
    rewrite lower_char_underscore. f_equal. eauto.
Qed.

Lemma tidy_collapse s : forall b, tidy b s = true -> collapse_runs b s = s.
Proof.
  induction s as [|c r IH]; intros b H; unfold_step_all; [reflexivity|].
  destruct (Js.is_lower_alnum c) eqn:Hc.
  - f_equal. auto.
  - apply andb_prop in H as [H Hr]. apply andb_prop in H as [Hus Hb].
    apply Ascii.eqb_eq in Hus. subst c.
    destruct b; [discriminate|]. f_equal. auto.
Qed.

Lemma strip_leading_tidy s : forall b, tidy b s = true -> tidy false (strip_leading s) = true.
Proof.
  induction s as [|c r IH]; intros b H; unfold_step_all; [reflexivity|].
  destruct (Ascii.eqb c underscore) eqn:Hus.
  - apply Ascii.eqb_eq in Hus. subst c.
    rewrite underscore_not_alnum in H.
    apply andb_prop in H as [_ Hr]. eauto.
  - unfold_step. destruct (Js.is_lower_alnum c); [exact H|discriminate].
Qed.

Lemma strip_trailing_tidy s : forall b, tidy b s = true -> tidy b (strip_trailing s) = true.
Proof.
  induction s as [|c r IH]; intros b H; unfold_step_all; [reflexivity|].
  destruct (Js.is_lower_alnum c) eqn:Hc.
  - specialize (IH false H).
    destruct (strip_trailing r) as [|c' r'] eqn:Hr.
    + destruct (Ascii.eqb c underscore); unfold_step; [reflexivity|]. now rewrite Hc.
    + cbn [tidy]. rewrite Hc. exact IH.
  - apply andb_prop in H as [H Hr]. apply andb_prop in H as [Hus Hb].
    specialize (IH true Hr).
    destruct (strip_trailing r) as [|c' r'] eqn:Hr'.
    + rewrite Hus. reflexivity.
    + cbn [tidy]. rewrite Hc, Hus, Hb. exact IH.
Qed.


Lemma strip_leading_clean s : clean_head (strip_leading s) = true.
Proof.
  induction s as [|c r IH]; cbn [strip_leading]; [reflexivity|].
  destruct (Ascii.eqb c underscore) eqn:Hus; [exact IH|].
  cbn [clean_head]. now rewrite Hus.
Qed.

Lemma clean_head_strip_leading s : clean_head s = true -> strip_leading s = s.
Proof.
  destruct s as [|c r]; cbn [clean_head strip_leading]; [reflexivity|].
  destruct (Ascii.eqb c underscore); [discriminate|reflexivity].
Qed.

Lemma strip_trailing_clean s : clean_head s = true -> clean_head (strip_trailing s) = true.
Proof.
  destruct s as [|c r]; cbn [clean_head strip_trailing]; [reflexivity|]. intros Hc.
  destruct (strip_trailing r); cbn [clean_head]; [|exact Hc].
  destruct (Ascii.eqb c underscore) eqn:Hus; [discriminate|].
  cbn [clean_head]. now rewrite Hus.
Qed.

Lemma strip_trailing_idem s : strip_trailing (strip_trailing s) = strip_trailing s.
Proof.
  induction s as [|c r IH]; cbn [strip_trailing]; [reflexivity|].
  destruct (strip_trailing r) as [|c' r'] eqn:Hr.
  - destruct (Ascii.eqb c underscore) eqn:Hus; cbn [strip_trailing]; [reflexivity|].
    now rewrite Hus.
  - change (strip_trailing (String c (String c' r'))) with
      (match strip_trailing (String c' r') with
       | EmptyString => if Ascii.eqb c underscore then EmptyString else String c EmptyString
       | x => String c x
       end).
    now rewrite IH.
Qed.

Lemma strip_underscores_idem s : strip_underscores (strip_underscores s) = strip_underscores s.
Proof.
  unfold strip_underscores.
  rewrite (clean_head_strip_leading (strip_trailing (strip_leading s))).
  - apply strip_trailing_idem.
  - apply strip_trailing_clean, strip_leading_clean.
Qed.

Lemma normalizeName_tidy s : tidy false (normalizeName s) = true.
Proof.
  unfold normalizeName, strip_underscores.
  apply strip_trailing_tidy.
  apply (strip_leading_tidy _ false), collapse_runs_tidy.
Qed.

(** A string of the output shape is only stripped by [normalizeName]. *)
Lemma normalizeName_of_tidy s : tidy false s = true -> normalizeName s = strip_underscores s.
Proof.
  intros H. unfold normalizeName.
  rewrite (tidy_lower s false H). now rewrite (tidy_collapse s false H).
Qed.





End NormalizeFacts.

(** C9.  Name normalization is idempotent: normalizing an already
    normalized string returns it unchanged, for every input string. *)
Theorem normalizeName_idempotent (s : string) :
  normalizeName (normalizeName s) = normalizeName s.
Proof.
  rewrite (NormalizeFacts.normalizeName_of_tidy _ (NormalizeFacts.normalizeName_tidy s)).
  unfold normalizeName. apply NormalizeFacts.strip_underscores_idem.
Qed.

(** ** The near-match test *)

Module FuzzyMatchFacts.

(** The loop returns whether the differences counted so far plus those at
    the remaining positions stay within two. *)
Lemma fuzzy_loop_counts str1 str2 todo :
  forall i differences,
    Bridge.fuzzy_loop str1 str2 todo i differences =
    (differences
     + List.length (List.filter (Bridge.differs_at str1 str2) (List.seq i todo)) <=? 2).
Proof.
  induction todo as [|todo IH]; intros i d; cbn [Bridge.fuzzy_loop List.seq List.filter].
  - cbn [List.length]. now rewrite Nat.add_0_r.
  - destruct (Bridge.differs_at str1 str2 i); cbn [List.length].
    + destruct (2 <? S d) eqn:Hd.
      * apply Nat.ltb_lt in Hd. symmetry. apply Nat.leb_gt. lia.
      * rewrite IH. f_equal. lia.
    + destruct (2 <? d) eqn:Hd.
      * apply Nat.ltb_lt in Hd. symmetry. apply Nat.leb_gt. lia.
      * apply IH.
Qed.

End FuzzyMatchFacts.



(** ** The index built by [setEntities] and [buildEntityIndex] *)

Module IndexFacts.








(** The index that [setEntities] leaves behind. *)
Lemma setEntities_loop_index data : forall (m : gmap string Entity.t) idx,
  snd (fold_left
         (fun (acc : gmap string Entity.t * Index) (e : Entity.t) =>
            (<[Entity.entity_id e := e]> (fst acc), index_entity (snd acc) e))
         data (m, idx))
  = fold_left index_entity data idx.
Proof.
  induction data as [|e data IH]; intros m idx; cbn [fold_left]; [reflexivity|].
  apply IH.
Qed.

Lemma setEntities_loop_snd data :
  snd (NameResolver.setEntities_loop data) = fold_left index_entity data [].
Proof. unfold NameResolver.setEntities_loop. apply setEntities_loop_index. Qed.

Lemma setEntities_nameIndex r data :
  NameResolver.nameIndex (NameResolver.setEntities r data) = fold_left index_entity data [].
Proof.
  unfold NameResolver.setEntities.
  rewrite <- (setEntities_loop_snd data).
  now destruct (NameResolver.setEntities_loop data).
Qed.

(** The index that [rebuild] leaves behind. *)
Lemma rebuild_fold_nameIndex data : forall s,
  Bridge.nameIndex (fold_left Bridge.rebuild_step data s)
  = fold_left index_entity data (Bridge.nameIndex s).
Proof.
  induction data as [|e data IH]; intros s; cbn [fold_left]; [reflexivity|].
  now rewrite IH.
Qed.

Lemma rebuild_nameIndex s data :
  Bridge.nameIndex (Bridge.rebuild s data) = fold_left index_entity data [].
Proof.
  unfold Bridge.rebuild. cbn [Bridge.nameIndex].
  now rewrite rebuild_fold_nameIndex.
Qed.

End IndexFacts.



(** ** Resolution *)

Module ResolveFacts.

(** The area filter of either resolver consults the entity's own [area_id]
    attribute and nothing else: an entity without that attribute never
    passes it, whatever the device registry says. *)
Lemma area_matches_needs_attribute_ts (r : NameResolver.t) area entityId entity :
  NameResolver.entities r !! entityId = Some entity ->
  Entity.attr entity "area_id" = None ->
  NameResolver.area_matches r area entityId = false.
Proof.
  intros He Ha. unfold NameResolver.area_matches. now rewrite He, Ha.
Qed.

Lemma area_matches_needs_attribute_js (s : Bridge.t) area entityId entity :
  obj_get (Bridge.entities s) entityId = Some entity ->
  Entity.attr entity "area_id" = None ->
  Bridge.area_matches s area entityId = false.
Proof.
  intros He Ha. unfold Bridge.area_matches. now rewrite He, Ha.
Qed.

Lemma truthy_some x : x <> "" -> Js.truthy (Some x) = true.
Proof.
  intros Hx. cbn [Js.truthy]. destruct (String.eqb x "") eqn:E; [|reflexivity].
  apply String.eqb_eq in E. contradiction.
Qed.

(** The test [if (args.entity_id)] takes an empty identifier for a missing
    one: resolution then goes by the name. *)
Lemma empty_explicit_id_is_ignored :
  NameResolver.resolveEntityId Examples.fans_resolver
    (Args.mk (Some "") (Some "fan") None None None) = Some "fan.den_fan".
Proof. vm_compute. reflexivity. Qed.

End ResolveFacts.

(** C1.  The registry holds two fans called "Fan": the den fan (area
    attribute "den") and the bedroom fan, whose area "Bedroom" is recorded
    only on the device that lists it.  Asked for the fan in the bedroom,
    the area filter of both resolvers rejects the bedroom fan, keeps both
    candidates because nothing passed, and the den fan is returned.  The
    area lookup used by the fuzzy search of the same server does find
    "Bedroom" for the bedroom fan. *)
Theorem area_filter_misses_device_area :
  Bridge.area_matches Examples.fans_server "bedroom" "fan.bedroom_fan" = false
  /\ Bridge.by_area Examples.fans_server Examples.bedroom_fan_query
       ["fan.den_fan"; "fan.bedroom_fan"] = ["fan.den_fan"; "fan.bedroom_fan"]
  /\ Bridge.resolveEntityId Examples.fans_server Examples.bedroom_fan_query
     = Some "fan.den_fan"
  /\ NameResolver.resolveEntityId Examples.fans_resolver Examples.bedroom_fan_query
     = Some "fan.den_fan"
  /\ option_map (fun a => normalizeName (Area.name a))
       (Bridge.entity_area Examples.fans_server "fan.bedroom_fan" Examples.bedroom_fan)
     = Some (normalizeName "bedroom").
Proof.
  repeat split; vm_compute; reflexivity.
Qed.

(** C2.  A query that carries an explicit identifier resolves to that
    identifier, in name-resolver.ts as in server.js, whatever name, area,
    floor and domain hints come with it and whatever the registry holds
    (the resolver states are arbitrary, so neither the index nor the
    entity map is consulted).  An identifier is a non-empty string. *)
Theorem explicit_id_wins (r : NameResolver.t) (s : Bridge.t) (a : Args.t) (x : string) :
  Args.entity_id a = Some x ->
  x <> "" ->
  NameResolver.resolveEntityId r a = Some x
  /\ Bridge.resolveEntityId s a = Some x.
Proof.
  intros Hid Hx.
  unfold NameResolver.resolveEntityId, Bridge.resolveEntityId.
  rewrite Hid, (ResolveFacts.truthy_some x Hx). now split.
Qed.

Lemma explicit_id_wins_witness :
  Args.entity_id Examples.explicit_query = Some "light.not_there"
  /\ "light.not_there" <> ""
  /\ NameResolver.resolveEntityId Examples.fans_resolver Examples.explicit_query
     = Some "light.not_there"
  /\ Bridge.resolveEntityId Examples.fans_server Examples.explicit_query
     = Some "light.not_there".
Proof.
  assert (H1 : Args.entity_id Examples.explicit_query = Some "light.not_there")
    by reflexivity.
  assert (H2 : "light.not_there" <> "") by discriminate.
  split; [exact H1|]. split; [exact H2|].
  exact (explicit_id_wins Examples.fans_resolver Examples.fans_server
           Examples.explicit_query "light.not_there" H1 H2).
Defined.

(** ** Ranking of the fuzzy search *)

Module RankingFacts.
Import Bridge Ranking.

Local Open Scope Z_scope.

(** *** The sort *)

Lemma sort_insert_perm h l : Permutation (sort_insert h l) (h :: l).
Proof.
  induction l as [|x rest IH]; cbn [sort_insert]; [reflexivity|].
  destruct (Hit.score h <? Hit.score x); [|reflexivity].
  rewrite IH. apply perm_swap.
Qed.

Lemma sort_by_score_perm l : Permutation (sort_by_score l) l.
Proof.
  induction l as [|h l IH]; cbn [sort_by_score fold_right]; [reflexivity|].
  fold (sort_by_score l). rewrite sort_insert_perm. now constructor.
Qed.

Lemma sort_insert_descending h l : descending l -> descending (sort_insert h l).
Proof.
  unfold descending.
  induction l as [|x rest IH]; intros Hs; cbn [sort_insert].
  - repeat constructor.
  - apply StronglySorted_inv in Hs as [Hrest Hx].
    destruct (Hit.score h <? Hit.score x) eqn:Hlt.
    + apply Z.ltb_lt in Hlt. constructor; [now apply IH|].
      rewrite List.Forall_forall in *. intros y Hy.
      apply (Permutation_in _ (sort_insert_perm h rest)) in Hy.
      destruct Hy as [<-|Hy]; [lia|now apply Hx].
    + apply Z.ltb_ge in Hlt. constructor; [now constructor|].
      constructor; [exact Hlt|].
      rewrite List.Forall_forall in *. intros y Hy. specialize (Hx y Hy). lia.
Qed.

Lemma sort_by_score_descending l : descending (sort_by_score l).
Proof.
  induction l as [|h l IH]; cbn [sort_by_score fold_right]; [constructor|].
  now apply sort_insert_descending.
Qed.

(** In a descending list a hit of strictly larger score stands in front
    of every occurrence of a hit of smaller score. *)
Lemma descending_ranked_above l ha hb :
  descending l -> In ha l -> Hit.score hb < Hit.score ha -> ranked_above l ha hb.
Proof.
  intros Hs Hin Hlt l1 l2 ->.
  apply in_app_or in Hin as [Hin|[->|Hin]]; [exact Hin|lia|].
  exfalso. induction l1 as [|x l1 IH]; cbn [app] in Hs.
  - apply StronglySorted_inv in Hs as [_ Hall].
    rewrite List.Forall_forall in Hall. specialize (Hall ha Hin). lia.
  - apply StronglySorted_inv in Hs as [Hs _]. now apply IH.
Qed.

Lemma ranked_above_firstn n l ha hb :
  ranked_above l ha hb -> ranked_above (firstn n l) ha hb.
Proof.
  intros H l1 l2 Heq. apply (H l1 (l2 ++ skipn n l)%list).
  rewrite <- (firstn_skipn n l) at 1. rewrite Heq.
  rewrite <- app_assoc. reflexivity.
Qed.

Lemma ranked_above_slice0 (e : Z) l ha hb :
  ranked_above l ha hb -> ranked_above (slice0 l e) ha hb.
Proof.
  unfold slice0. destruct (e <? 0); apply ranked_above_firstn.
Qed.

(** *** The score *)

Lemma sumZ_nonneg l : Forall (fun x => 0 <= x) l -> 0 <= sumZ l.
Proof.
  induction 1 as [|x l Hx _ IH]; cbn [sumZ fold_right]; [lia|].
  fold (sumZ l). lia.
Qed.

Lemma word_score_nonneg w1 w2 w3 w4 word qWord :
  0 <= w1 -> 0 <= w2 -> 0 <= w3 -> 0 <= w4 ->
  0 <= word_score w1 w2 w3 w4 word qWord.
Proof.
  intros. unfold word_score.
  repeat match goal with |- context [if ?b then _ else _] => destruct b end; lia.
Qed.

Lemma token_score_nonneg nn ni qs : 0 <= token_score nn ni qs.
Proof.
  unfold token_score. apply sumZ_nonneg, List.Forall_forall.
  intros x Hx. apply List.in_map_iff in Hx as (qWord & <- & _).
  assert (H1 : 0 <= sumZ (List.map (fun nWord => word_score 100 50 25 15 nWord qWord)
                            (words nn))).
  { apply sumZ_nonneg, List.Forall_forall. intros y Hy.
    apply List.in_map_iff in Hy as (w & <- & _). apply word_score_nonneg; lia. }
  assert (H2 : 0 <= sumZ (List.map (fun iWord => word_score 80 40 20 10 iWord qWord)
                            (words ni))).
  { apply sumZ_nonneg, List.Forall_forall. intros y Hy.
    apply List.in_map_iff in Hy as (w & <- & _). apply word_score_nonneg; lia. }
  lia.
Qed.

(** Apart from the penalty of 50 nothing is ever subtracted. *)
Lemma other_signals_lower_bound s a nq id entity :
  -50 <= other_signals s a nq id entity.
Proof.
  unfold other_signals, contains_score, domain_bonus, area_bonus, unavailable_penalty.
  pose proof (token_score_nonneg (normalizeName (search_name id entity))
                (normalizeName id) (words nq)).
  repeat match goal with
         | |- context [if ?b then _ else _] => destruct b
         | |- context [match ?o with Some _ => _ | None => _ end] => destruct o
         end; lia.
Qed.

Lemma prefix_refl s : String.prefix s s = true.
Proof.
  induction s as [|c r IH]; cbn [String.prefix]; [reflexivity|].
  destruct (ascii_dec c c); [exact IH|contradiction].
Qed.

(** An exact match also satisfies the starts-with test. *)
Lemma is_exact_is_prefix nn ni nq : is_exact nn ni nq = true -> is_prefix nn ni nq = true.
Proof.
  unfold is_exact, is_prefix, Js.startsWith. intros H.
  apply orb_true_iff in H as [H|H]; apply String.eqb_eq in H; subst;
    rewrite prefix_refl; [reflexivity|apply orb_true_r].
Qed.

Lemma hit_score s a nq kv :
  Hit.score (hit_of s a nq kv) = score_of s a nq (fst kv) (snd kv).
Proof. now destruct kv. Qed.

Lemma score_exact s a nq kv :
  exact_match nq kv = true ->
  Hit.score (hit_of s a nq kv) = 1500 + other_signals s a nq (fst kv) (snd kv).
Proof.
  intros He. rewrite hit_score. unfold score_of, exact_score, prefix_score.
  unfold exact_match, normalized_name, normalized_id in He.
  rewrite He, (is_exact_is_prefix _ _ _ He). lia.
Qed.

Lemma score_prefix_only s a nq kv :
  prefix_only nq kv = true ->
  Hit.score (hit_of s a nq kv) = 500 + other_signals s a nq (fst kv) (snd kv).
Proof.
  intros Hp. rewrite hit_score. unfold score_of, exact_score, prefix_score.
  unfold prefix_only, normalized_name, normalized_id in Hp.
  apply andb_prop in Hp as [Hp He]. apply negb_true_iff in He.
  rewrite Hp, He. lia.
Qed.

(** A candidate of positive score is reported. *)
Lemma in_ranking s a nq kv :
  In kv (entities s) -> 0 < Hit.score (hit_of s a nq kv) ->
  In (hit_of s a nq kv) (ranking s a nq).
Proof.
  intros Hin Hpos. unfold ranking.
  apply (Permutation_in _ (Permutation_sym (sort_by_score_perm _))).
  unfold scored. apply List.filter_In. split; [now apply List.in_map|].
  now apply Z.ltb_lt.
Qed.

End RankingFacts.

(** C3, as the code has it.  The signals are summed: an exact match
    collects 1000 and, because it also starts with the query, the 500 of
    the starts-with signal; a prefix-only match collects the 500 alone.
    So an exact match is reported and ranked strictly above a prefix-only
    match, in the sorted array and in every slice of it, whenever the
    remaining signals of the prefix-only match (contains, words, hint
    bonuses, penalty) exceed those of the exact match by less than 1000. *)
Theorem exact_outranks_prefix_within_margin
        (s : Bridge.t) (a : Bridge.SearchArgs.t) (nq : string)
        (ka kb : string * Entity.t) :
  In ka (Bridge.entities s) ->
  In kb (Bridge.entities s) ->
  Ranking.exact_match nq ka = true ->
  Ranking.prefix_only nq kb = true ->
  (Bridge.other_signals s a nq (fst kb) (snd kb)
   < Bridge.other_signals s a nq (fst ka) (snd ka) + 1000)%Z ->
  let ha := Bridge.hit_of s a nq ka in
  let hb := Bridge.hit_of s a nq kb in
  In ha (Ranking.ranking s a nq)
  /\ In hb (Ranking.ranking s a nq)
  /\ Ranking.ranked_above (Ranking.ranking s a nq) ha hb
  /\ forall limit : Z, Ranking.ranked_above (slice0 (Ranking.ranking s a nq) limit) ha hb.
Proof.
  intros Hina Hinb Hea Hpb Hmargin ha hb. subst ha hb.
  pose proof (RankingFacts.score_exact s a nq ka Hea) as Hsa.
  pose proof (RankingFacts.score_prefix_only s a nq kb Hpb) as Hsb.
  pose proof (RankingFacts.other_signals_lower_bound s a nq (fst ka) (snd ka)).
  pose proof (RankingFacts.other_signals_lower_bound s a nq (fst kb) (snd kb)).
  assert (Ha : In (Bridge.hit_of s a nq ka) (Ranking.ranking s a nq))
    by (apply RankingFacts.in_ranking; [exact Hina|lia]).
  assert (Hb : In (Bridge.hit_of s a nq kb) (Ranking.ranking s a nq))
    by (apply RankingFacts.in_ranking; [exact Hinb|lia]).
  assert (Hr : Ranking.ranked_above (Ranking.ranking s a nq)
                 (Bridge.hit_of s a nq ka) (Bridge.hit_of s a nq kb)).
  { apply RankingFacts.descending_ranked_above;
      [apply RankingFacts.sort_by_score_descending | exact Ha | lia]. }
  repeat split; try assumption.
  intros limit. now apply RankingFacts.ranked_above_slice0.
Qed.

Lemma exact_outranks_prefix_within_margin_witness :
  let s := Examples.lamps_server in
  let a := Examples.lamp_search in
  let ka := ("light.desk", Examples.desk_lamp) in
  let kb := ("light.lamp_left", Examples.lamp_left) in
  Ranking.exact_match "lamp" ka = true
  /\ Ranking.prefix_only "lamp" kb = true
  /\ Ranking.ranked_above (Ranking.ranking s a "lamp")
       (Bridge.hit_of s a "lamp" ka) (Bridge.hit_of s a "lamp" kb).
Proof.
  intros s a ka kb.
  assert (Hina : In ka (Bridge.entities s)) by (right; left; reflexivity).
  assert (Hinb : In kb (Bridge.entities s)) by (left; reflexivity).
  assert (Hea : Ranking.exact_match "lamp" ka = true) by (vm_compute; reflexivity).
  assert (Hpb : Ranking.prefix_only "lamp" kb = true) by (vm_compute; reflexivity).
  assert (Hm : (Bridge.other_signals s a "lamp" (fst kb) (snd kb)
                < Bridge.other_signals s a "lamp" (fst ka) (snd ka) + 1000)%Z)
    by (vm_compute; reflexivity).
  split; [exact Hea|]. split; [exact Hpb|].
  exact (proj1 (proj2 (proj2
           (exact_outranks_prefix_within_margin s a "lamp" ka kb Hina Hinb Hea Hpb Hm)))).
Defined.

(** C3, as the specification words it, fails.  The switch named "Light"
    matches the query "light" exactly and scores 1850; the light whose
    name and identifier repeat the word only starts with the query, yet
    its word signals add up to 1870 and it is ranked first. *)
Lemma exact_outranks_prefix_fails :
  ~ Ranking.exact_outranks_prefix Examples.lights_server Examples.light_search.
Proof.
  intros H.
  assert (Hq : "light" <> "") by discriminate.
  specialize (H "light" eq_refl Hq
                ("switch.porch", Examples.porch_switch)
                ("light.light_light_light", Examples.light_row)).
  assert (Hina : In ("switch.porch", Examples.porch_switch)
                    (Bridge.entities Examples.lights_server))
    by (left; reflexivity).
  assert (Hinb : In ("light.light_light_light", Examples.light_row)
                    (Bridge.entities Examples.lights_server))
    by (right; left; reflexivity).
  specialize (H Hina Hinb).
  assert (He : Ranking.exact_match (normalizeName "light")
                 ("switch.porch", Examples.porch_switch) = true)
    by (vm_compute; reflexivity).
  assert (Hp : Ranking.prefix_only (normalizeName "light")
                 ("light.light_light_light", Examples.light_row) = true)
    by (vm_compute; reflexivity).
  specialize (H He Hp [] [Bridge.hit_of Examples.lights_server Examples.light_search
                            (normalizeName "light") ("switch.porch", Examples.porch_switch)]).
  apply H. vm_compute. reflexivity.
Qed.

(** ** The cache *)

Module CacheFacts.
Import CacheManager.

Local Open Scope Z_scope.

Section WithPayload.
Context {T : Type}.
Implicit Types (c : CacheManager.t T) (key : string) (d : data T).

Lemma set_memory c key d ttl now w :
  memoryCache (set c key d ttl now w) !! key
  = Some (mkCached d now (stored_ttl c ttl)).
Proof.
  unfold set. destruct w; cbn [memoryCache with_disk with_memory];
    apply lookup_insert_eq.
Qed.

Lemma set_disk_done c key d ttl now :
  disk (set c key d ttl now Done) !! key
  = Some (Parsed (mkCached d now (stored_ttl c ttl))).
Proof.
  unfold set. cbn [disk with_disk with_memory]. apply lookup_insert_eq.
Qed.


(** A [get] that finds a fresh record in memory returns its data and
    touches nothing. *)
Lemma get_memory_hit c key m now1 now2 :
  memoryCache c !! key = Some m -> fresh now1 m = true ->
  get c key now1 now2 = (cached_data m, c).
Proof. intros Hm Hf. unfold get. now rewrite Hm, Hf. Qed.

(** A [get] that finds no fresh record in either tier returns [null] and
    touches nothing. *)
Lemma get_miss c key now1 now2 :
  misses c key now1 now2 -> get c key now1 now2 = (Null, c).
Proof.
  intros [Hm Hd]. unfold get, get_disk.
  assert (Hdisk : match disk c !! key with
                  | Some (Parsed cached) =>
                      if fresh now2 cached
                      then (cached_data cached,
                            with_memory c (<[key := cached]> (memoryCache c)))
                      else (Null, c)
                  | _ => (Null, c)
                  end = (Null, c)).
  { destruct (disk c !! key) as [[r|]|] eqn:E; try reflexivity.
    now rewrite (Hd r eq_refl). }
  destruct (memoryCache c !! key) as [m|] eqn:E; [|exact Hdisk].
  now rewrite (Hm m eq_refl).
Qed.

(** What [get] returns is [null] or the data of a record; the durable
    tier is never written by it. *)
Lemma get_disk_unchanged c key now1 now2 :
  disk (snd (get c key now1 now2)) = disk c.
Proof.
  unfold get, get_disk.
  destruct (memoryCache c !! key) as [m|]; [destruct (fresh now1 m); [reflexivity|]|];
    destruct (disk c !! key) as [[r|]|]; try reflexivity;
    destruct (fresh now2 r); reflexivity.
Qed.

End WithPayload.
End CacheFacts.





Module NullFacts.
Import CacheManager.

Local Open Scope Z_scope.

Section WithPayload.
Context {T E Env : Type}.
Implicit Types (c : CacheManager.t T) (key : string).

(** [getOrFetch] after a [get] that returned [null]: the fetch function
    is run and decides the outcome. *)
Lemma getOrFetch_after_null c key (fetchFn : fetcher T E Env) ttl tm env c1 :
  get c key (now_mem tm) (now_disk tm) = (Null, c1) ->
  getOrFetch c key fetchFn ttl tm env
  = match fetchFn env with
    | (Rejects err, env1) => (inl err, c1, env1)
    | (Resolves d, env1) => (inr d, set c1 key d ttl (now_set tm) (write tm), env1)
    end.
Proof.
  intros Hget. unfold getOrFetch. rewrite Hget.
  destruct (fetchFn env) as [[d|err] env1]; reflexivity.
Qed.

(** A durable record that holds [null] and is still fresh is copied into
    memory by the [get] inside [getOrFetch], which then goes on to fetch:
    with a rejecting fetch function the in-memory tier has gained that
    copy, the durable tier is as before. *)
Lemma getOrFetch_promotes_stored_null c key (fetchFn : fetcher T E Env) ttl tm env
      env1 err r :
  memoryCache c !! key = None ->
  disk c !! key = Some (Parsed r) ->
  cached_data r = Null ->
  fresh (now_disk tm) r = true ->
  fetchFn env = (Rejects err, env1) ->
  getOrFetch c key fetchFn ttl tm env
  = (inl err, with_memory c (<[key := r]> (memoryCache c)), env1).
Proof.
  intros Hm Hd Hnull Hfresh Hfetch.
  unfold getOrFetch, get, get_disk. rewrite Hm, Hd, Hfresh, Hnull. now rewrite Hfetch.
Qed.

(** With a fresh in-memory record that holds [null] the [get] answers
    from memory: a rejecting fetch function then leaves the cache as it
    was. *)
Lemma getOrFetch_rejection_after_stored_null c key (fetchFn : fetcher T E Env) ttl tm
      env env1 err m :
  memoryCache c !! key = Some m ->
  cached_data m = Null ->
  fresh (now_mem tm) m = true ->
  fetchFn env = (Rejects err, env1) ->
  getOrFetch c key fetchFn ttl tm env = (inl err, c, env1).
Proof.
  intros Hm Hnull Hfresh Hfetch.
  unfold getOrFetch, get. rewrite Hm, Hfresh, Hnull. now rewrite Hfetch.
Qed.

End WithPayload.
End NullFacts.

(** C10.  When [getOrFetch] reaches its fetch function and that resolves
    to [null], [null] is returned and a record holding [null] is written
    for the key.  From then on, while that record is fresh, [get] returns
    [null], the miss value, and leaves the cache as it is, and
    [getOrFetch] runs its fetch function again; when the file write went
    through, [get] returns [null] at every later reading, fresh or not. *)
Theorem stored_null_reads_as_miss {T E Env : Type}
        (c : CacheManager.t T) (k : string) (fetchFn : CacheManager.fetcher T E Env)
        (ttl : option Z) (tm : CacheManager.timing) (env env1 : Env) :
  fst (CacheManager.get c k (CacheManager.now_mem tm) (CacheManager.now_disk tm))
  = CacheManager.Null ->
  fetchFn env = (CacheManager.Resolves CacheManager.Null, env1) ->
  exists c1 : CacheManager.t T,
    CacheManager.getOrFetch c k fetchFn ttl tm env = (inr CacheManager.Null, c1, env1)
    /\ (exists life : Z,
           CacheManager.memoryCache c1 !! k
           = Some (CacheManager.mkCached CacheManager.Null (CacheManager.now_set tm) life)
           /\ forall now1 now2 : Z,
               (now1 - CacheManager.now_set tm < life)%Z ->
               CacheManager.get c1 k now1 now2 = (CacheManager.Null, c1)
               /\ forall (fetchFn' : CacheManager.fetcher T E Env) ttl' tm' env',
                   CacheManager.now_mem tm' = now1 ->
                   CacheManager.now_disk tm' = now2 ->
                   CacheManager.getOrFetch c1 k fetchFn' ttl' tm' env'
                   = match fetchFn' env' with
                     | (CacheManager.Rejects err, env2) => (inl err, c1, env2)
                     | (CacheManager.Resolves d, env2) =>
                         (inr d,
                          CacheManager.set c1 k d ttl' (CacheManager.now_set tm')
                            (CacheManager.write tm'),
                          env2)
                     end)
    /\ (CacheManager.write tm = CacheManager.Done ->
        forall now1 now2 : Z, fst (CacheManager.get c1 k now1 now2) = CacheManager.Null).
Proof.
  intros Hget Hfetch.
  destruct (CacheManager.get c k (CacheManager.now_mem tm) (CacheManager.now_disk tm))
    as [got c0] eqn:Hg.
  cbn [fst] in Hget. subst got.
  exists (CacheManager.set c0 k CacheManager.Null ttl (CacheManager.now_set tm)
            (CacheManager.write tm)).
  split; [|split].
  - rewrite (NullFacts.getOrFetch_after_null c k fetchFn ttl tm env c0 Hg).
    now rewrite Hfetch.
  - exists (CacheManager.stored_ttl c0 ttl).
    pose proof (CacheFacts.set_memory c0 k CacheManager.Null ttl
                  (CacheManager.now_set tm) (CacheManager.write tm)) as Hmem.
    split; [exact Hmem|].
    intros now1 now2 Hfresh.
    assert (Hnull : CacheManager.get
                      (CacheManager.set c0 k CacheManager.Null ttl
                         (CacheManager.now_set tm) (CacheManager.write tm))
                      k now1 now2
                    = (CacheManager.Null,
                       CacheManager.set c0 k CacheManager.Null ttl
                         (CacheManager.now_set tm) (CacheManager.write tm))).
    { rewrite (CacheFacts.get_memory_hit _ k _ now1 now2 Hmem); [reflexivity|].
      unfold CacheManager.fresh. cbn [CacheManager.timestamp CacheManager.ttl].
      now apply Z.ltb_lt. }
    split; [exact Hnull|].
    intros fetchFn' ttl' tm' env' H1 H2. subst now1 now2.
    apply NullFacts.getOrFetch_after_null. exact Hnull.
  - intros Hw now1 now2. rewrite Hw.
    pose proof (CacheFacts.set_memory c0 k CacheManager.Null ttl
                  (CacheManager.now_set tm) CacheManager.Done) as Hmem.
    pose proof (CacheFacts.set_disk_done c0 k CacheManager.Null ttl
                  (CacheManager.now_set tm)) as Hdisk.
    unfold CacheManager.get, CacheManager.get_disk. rewrite Hmem, Hdisk.
    cbn [CacheManager.cached_data].
    destruct (CacheManager.fresh now1 _); [reflexivity|].
    destruct (CacheManager.fresh now2 _); reflexivity.
Qed.

Lemma stored_null_reads_as_miss_witness :
  fst (CacheManager.get Examples.fresh_cache "areas" 0%Z 0%Z) = CacheManager.Null
  /\ exists c1 : CacheManager.t string,
      CacheManager.getOrFetch Examples.fresh_cache "areas" Examples.null_fetch
        None Examples.at_start 0%nat = (inr CacheManager.Null, c1, 1%nat)
      /\ CacheManager.get c1 "areas" 999%Z 999%Z = (CacheManager.Null, c1).
Proof.
  assert (Hget : fst (CacheManager.get Examples.fresh_cache "areas"
                        (CacheManager.now_mem Examples.at_start)
                        (CacheManager.now_disk Examples.at_start))
                 = CacheManager.Null) by reflexivity.
  split; [exact Hget|].
  destruct (stored_null_reads_as_miss Examples.fresh_cache "areas" Examples.null_fetch
              None Examples.at_start 0%nat 1%nat Hget eq_refl)
    as (c1 & Hrun & (life & Hmem & Hlater) & _).
  exists c1. split; [exact Hrun|].
  apply Hlater.
  assert (Hc1 : c1 = CacheManager.set Examples.fresh_cache "areas" CacheManager.Null
                       None 0%Z CacheManager.Done).
  { vm_compute in Hrun. injection Hrun as <-. vm_compute. reflexivity. }
  rewrite Hc1 in Hmem. rewrite CacheFacts.set_memory in Hmem.
  injection Hmem as <-. cbn. lia.
Defined.

(** ** Rebuilds and lookups on the event loop *)

Module LoopFacts.
Import EventLoop.

Section Invariant.
Context {S Obs Tok : Type}.
Variable Inv : S -> Prop.
Variable ask : Tok -> S -> Obs.


End Invariant.



(** *** name-resolver.ts *)


(** *** server.js *)


End LoopFacts.



(** ** More on normalization *)

Module NormalizeMore.
Import NormalizeFacts.

Lemma tidy_chars s : forall b i c,
  tidy b s = true -> String.get i s = Some c ->
  Js.is_lower_alnum c = true \/ c = underscore.
Proof.
  induction s as [|c0 r IH]; intros b i c Ht Hget; [discriminate|].
  cbn [tidy] in Ht. destruct i as [|i]; cbn [String.get] in Hget.
  - injection Hget as <-. destruct (Js.is_lower_alnum c0) eqn:Hc; [now left|].
    apply andb_prop in Ht as [Ht _]. apply andb_prop in Ht as [Hus _].
    apply Ascii.eqb_eq in Hus. now right.
  - destruct (Js.is_lower_alnum c0).
    + eapply IH; eauto.
    + apply andb_prop in Ht as [_ Ht]. eapply IH; eauto.
Qed.

Lemma tidy_true_head s :
  tidy true s = true -> String.prefix "_" s = false.
Proof.
  destruct s as [|c r]; [reflexivity|]. cbn [tidy]. intros Ht.
  cbn [String.prefix]. destruct (ascii_dec "_" c) as [<-|Hne]; [|reflexivity].
  cbn in Ht. discriminate.
Qed.

Lemma tidy_no_double s : forall b, tidy b s = true -> Js.includes s "__" = false.
Proof.
  induction s as [|c r IH]; intros b Ht; [reflexivity|].
  cbn [Js.includes]. cbn [tidy] in Ht.
  assert (Hr : exists b', tidy b' r = true).
  { destruct (Js.is_lower_alnum c); [now exists false|].
    apply andb_prop in Ht as [_ Ht]. now exists true. }
  destruct Hr as [b' Hr]. rewrite (IH b' Hr), orb_false_r.
  cbn [String.prefix]. destruct (ascii_dec "_" c) as [<-|Hne]; [|reflexivity].
  cbn in Ht. apply andb_prop in Ht as [_ Ht].
  change (String.prefix "_" r = false). now apply tidy_true_head.
Qed.

Lemma clean_head_prefix s : clean_head s = true -> String.prefix "_" s = false.
Proof.
  destruct s as [|c r]; [reflexivity|]. cbn [clean_head String.prefix].
  destruct (ascii_dec "_" c) as [<-|Hne]; [discriminate|reflexivity].
Qed.

Lemma strip_trailing_length s : String.length (strip_trailing s) <= String.length s.
Proof.
  induction s as [|c r IH]; cbn [strip_trailing String.length]; [lia|].
  destruct (strip_trailing r) as [|c' r'].
  - destruct (Ascii.eqb c underscore); cbn [String.length]; lia.
  - cbn [String.length] in *. lia.
Qed.




Lemma strip_trailing_snoc t : strip_trailing (t ++ "_") = strip_trailing t.
Proof.
  induction t as [|c r IH]; [reflexivity|].
  change (String c r ++ "_") with (String c (r ++ "_")).
  cbn [strip_trailing]. now rewrite IH.
Qed.

Lemma append_length a b : String.length (a ++ b) = String.length a + String.length b.
Proof.
  induction a as [|c r IH]; [reflexivity|].
  change (String c r ++ b) with (String c (r ++ b)).
  cbn [String.length]. now rewrite IH.
Qed.

(** A string fixed by [strip_trailing] does not end with an underscore. *)
Lemma strip_trailing_fixed_no_snoc n t : strip_trailing n = n -> n <> t ++ "_".
Proof.
  intros Hfix ->. rewrite strip_trailing_snoc in Hfix.
  pose proof (strip_trailing_length t) as Hl. rewrite Hfix, append_length in Hl.
  cbn [String.length] in Hl. lia.
Qed.

Lemma normalizeName_fixed_trailing s : strip_trailing (normalizeName s) = normalizeName s.
Proof. unfold normalizeName, strip_underscores. apply strip_trailing_idem. Qed.

Lemma normalizeName_clean_head s : clean_head (normalizeName s) = true.
Proof.
  unfold normalizeName, strip_underscores.
  apply strip_trailing_clean, strip_leading_clean.
Qed.

(** *** Characters of the same class *)


End NormalizeMore.

(** X1.  A normalized name consists of characters of [[a-z0-9]] and
    underscores, neither begins nor ends with an underscore, and never has
    two underscores in a row. *)
Theorem normalizeName_shape (s : string) :
  (forall i c, String.get i (normalizeName s) = Some c ->
               Js.is_lower_alnum c = true \/ c = underscore)
  /\ Js.startsWith (normalizeName s) "_" = false
  /\ (forall t, normalizeName s <> t ++ "_")
  /\ Js.includes (normalizeName s) "__" = false.
Proof.
  pose proof (NormalizeFacts.normalizeName_tidy s) as Ht.
  repeat split.
  - intros i c. now apply (NormalizeMore.tidy_chars _ false).
  - apply NormalizeMore.clean_head_prefix, NormalizeMore.normalizeName_clean_head.
  - intros t. apply NormalizeMore.strip_trailing_fixed_no_snoc,
      NormalizeMore.normalizeName_fixed_trailing.
  - now apply (NormalizeMore.tidy_no_double _ false).
Qed.

Lemma normalizeName_shape_witness :
  Js.is_lower_alnum "l" = true \/ "l"%char = underscore.
Proof.
  apply (proj1 (normalizeName_shape "  Living Room!") 0 "l"%char).
  vm_compute. reflexivity.
Defined.




Module WordsFacts.
Import NormalizeFacts.

Lemma split_cons sep s : exists w ws, Js.split sep s = w :: ws.
Proof.
  destruct s as [|c r]; cbn [Js.split]; [now eexists _, _|].
  destruct (Ascii.eqb c sep); [now eexists _, _|].
  destruct (Js.split sep r); now eexists _, _.
Qed.

(** Joining the pieces of a split with the separator gives the string back. *)
Lemma join_split sep s : String.concat (String sep "") (Js.split sep s) = s.
Proof.
  induction s as [|c r IH]; [reflexivity|].
  cbn [Js.split]. destruct (split_cons sep r) as (w & ws & Hr).
  rewrite Hr in *. destruct (Ascii.eqb c sep) eqn:Hc.
  - apply Ascii.eqb_eq in Hc. subst c.
    change (String.concat (String sep "") ("" :: w :: ws))
      with ("" ++ String sep "" ++ String.concat (String sep "") (w :: ws)).
    now rewrite IH.
  - destruct ws as [|w' ws].
    + cbn [String.concat] in *. now subst.
    + change (String.concat (String sep "") (String c w :: w' :: ws))
        with (String c (w ++ String sep "" ++ String.concat (String sep "") (w' :: ws))).
      f_equal. exact IH.
Qed.

Lemma fixed_trailing_tail c r :
  strip_trailing (String c r) = String c r ->
  strip_trailing r = r /\ (c = underscore -> r <> "").
Proof.
  cbn [strip_trailing]. destruct (strip_trailing r) as [|c' r'] eqn:Hr.
  - destruct (Ascii.eqb c underscore) eqn:Hc; [discriminate|].
    intros H. injection H as <-. split; [reflexivity|].
    intros ->. rewrite Ascii.eqb_refl in Hc. discriminate.
  - intros H. injection H as <-. split; [reflexivity|discriminate].
Qed.

(** In a tidy string that does not end with an underscore every piece
    after the first is non-empty, and so is the first unless the string is
    empty or begins with an underscore. *)
Lemma split_pieces s : forall b,
  tidy b s = true -> strip_trailing s = s ->
  forallb nonempty (tl (Js.split underscore s)) = true
  /\ (s <> "" -> clean_head s = true ->
      nonempty (hd "" (Js.split underscore s)) = true).
Proof.
  induction s as [|c r IH]; intros b Ht Hfix.
  - split; [reflexivity|]. intros H. now destruct H.
  - apply fixed_trailing_tail in Hfix as [Hfix Hne].
    cbn [tidy] in Ht. cbn [Js.split].
    destruct (split_cons underscore r) as (w & ws & Hr).
    destruct (Ascii.eqb c underscore) eqn:Hc.
    + apply Ascii.eqb_eq in Hc. subst c. cbn in Ht.
      apply andb_prop in Ht as [_ Ht].
      destruct (IH true Ht Hfix) as [Htl Hhd].
      split; [|intros _ Hch; cbn in Hch; discriminate].
      cbn [tl]. rewrite Hr in *. cbn [forallb tl hd] in *.
      rewrite Htl, andb_true_r. apply Hhd; [now apply Hne|].
      destruct r as [|c' r']; [reflexivity|].
      cbn [tidy] in Ht. cbn [clean_head].
      destruct (Ascii.eqb c' underscore) eqn:Hc'; [|reflexivity].
      apply Ascii.eqb_eq in Hc'. subst c'. cbn in Ht. discriminate.
    + assert (Hr' : exists b', tidy b' r = true).
      { destruct (Js.is_lower_alnum c); [now exists false|].
        discriminate. }
      destruct Hr' as [b' Hr'].
      destruct (IH b' Hr' Hfix) as [Htl _].
      rewrite Hr in *. cbn [tl hd] in *. split; [exact Htl|reflexivity].
Qed.

Lemma filter_nonempty_all l :
  forallb nonempty l = true -> Js.filter_nonempty l = l.
Proof.
  unfold Js.filter_nonempty, nonempty.
  induction l as [|w l IH]; [reflexivity|]. cbn [forallb List.filter].
  intros H. apply andb_prop in H as [Hw Hl]. rewrite Hw. f_equal. auto.
Qed.

End WordsFacts.

(** X4.  The word lists the search compares are a faithful reading of the
    normalized name: splitting it at the underscores leaves no empty piece
    for [filter(Boolean)] to drop (unless the name is empty), and joining
    the words with underscores gives the normalized name back. *)
Theorem words_join_roundtrip (s : string) :
  Js.join "_" (Bridge.words (normalizeName s)) = normalizeName s
  /\ (normalizeName s <> "" ->
      Bridge.words (normalizeName s) = Js.split "_" (normalizeName s)).
Proof.
  assert (Hall : normalizeName s <> "" ->
                 Bridge.words (normalizeName s) = Js.split "_" (normalizeName s)).
  { intros Hne. unfold Bridge.words.
    apply WordsFacts.filter_nonempty_all.
    destruct (WordsFacts.split_pieces (normalizeName s) false
                (NormalizeFacts.normalizeName_tidy s)
                (NormalizeMore.normalizeName_fixed_trailing s)) as [Htl Hhd].
    specialize (Hhd Hne (NormalizeMore.normalizeName_clean_head s)).
    change "_"%char with underscore.
    destruct (WordsFacts.split_cons underscore (normalizeName s)) as (w & ws & Hsp).
    rewrite Hsp in *. cbn [forallb tl hd] in *. now rewrite Hhd, Htl. }
  split; [|exact Hall].
  destruct (string_dec (normalizeName s) "") as [He|Hne].
  - rewrite He. reflexivity.
  - rewrite (Hall Hne). unfold Js.join. apply (WordsFacts.join_split "_").
Qed.

Lemma words_join_roundtrip_witness :
  normalizeName "Office Lights" <> ""
  /\ Bridge.words (normalizeName "Office Lights")
     = Js.split "_" (normalizeName "Office Lights").
Proof.
  assert (H : normalizeName "Office Lights" <> "") by (vm_compute; discriminate).
  split; [exact H|].
  exact (proj2 (words_join_roundtrip "Office Lights") H).
Defined.

(** ** More on the index and the entity map *)

Module IndexMore.




(** *** Shape of the index *)

Lemma index_push_keys idx key id :
  List.map fst (index_push idx key id)
  = if existsb (String.eqb key) (List.map fst idx) then List.map fst idx
    else (List.map fst idx ++ [key])%list.
Proof.
  induction idx as [|[k ids] rest IH]; cbn [index_push List.map existsb fst];
    [reflexivity|].
  rewrite (String.eqb_sym key k).
  destruct (String.eqb k key); cbn [List.map fst orb]; [reflexivity|].
  rewrite IH. now destruct (existsb (String.eqb key) (List.map fst rest)).
Qed.

Lemma NoDup_snoc {A} (l : list A) x : List.NoDup l -> ~ In x l -> List.NoDup (l ++ [x]).
Proof.
  induction 1 as [|y l Hy Hl IH]; intros Hx; cbn [app].
  - constructor; [intros []|constructor].
  - constructor.
    + intros Hin. apply in_app_or in Hin as [Hin|[<-|[]]]; [now apply Hy|].
      apply Hx. now left.
    + apply IH. intros Hin. apply Hx. now right.
Qed.

Lemma index_push_NoDup idx key id :
  List.NoDup (List.map fst idx) -> List.NoDup (List.map fst (index_push idx key id)).
Proof.
  intros H. rewrite index_push_keys.
  destruct (existsb (String.eqb key) (List.map fst idx)) eqn:He; [exact H|].
  apply NoDup_snoc; [exact H|]. intros Hx.
  assert (existsb (String.eqb key) (List.map fst idx) = true); [|congruence].
  apply List.existsb_exists. exists key. split; [exact Hx|apply String.eqb_refl].
Qed.

Lemma index_push_nonempty idx key id :
  Forall (fun kv : string * list string => snd kv <> []) idx ->
  Forall (fun kv : string * list string => snd kv <> []) (index_push idx key id).
Proof.
  induction 1 as [|[k ids] rest Hk Hrest IH]; cbn [index_push].
  - repeat constructor. discriminate.
  - destruct (String.eqb k key); constructor; try assumption.
    cbn [snd]. now destruct ids.
Qed.

Lemma fold_shape data : forall idx,
  List.NoDup (List.map fst idx) ->
  Forall (fun kv : string * list string => snd kv <> []) idx ->
  List.NoDup (List.map fst (fold_left index_entity data idx))
  /\ Forall (fun kv : string * list string => snd kv <> [])
            (fold_left index_entity data idx).
Proof.
  induction data as [|e data IH]; intros idx Hn Hf; cbn [fold_left]; [now split|].
  apply IH; unfold index_entity.
  - now do 2 apply index_push_NoDup.
  - now do 2 apply index_push_nonempty.
Qed.

(** *** The entity maps *)




End IndexMore.


(** X6.  A built index has pairwise distinct tokens and no token with an
    empty candidate list. *)
Theorem index_well_formed (r : NameResolver.t) (s : Bridge.t) (data : list Entity.t) :
  let built := NameResolver.nameIndex (NameResolver.setEntities r data) in
  let built_js := Bridge.nameIndex (Bridge.buildEntityIndex s (Bridge.States data)) in
  List.NoDup (List.map fst built)
  /\ Forall (fun kv : string * list string => snd kv <> []) built
  /\ List.NoDup (List.map fst built_js)
  /\ Forall (fun kv : string * list string => snd kv <> []) built_js.
Proof.
  cbn [Bridge.buildEntityIndex].
  rewrite IndexFacts.setEntities_nameIndex, IndexFacts.rebuild_nameIndex.
  destruct (IndexMore.fold_shape data [] (List.NoDup_nil _) (List.Forall_nil _)) as [H1 H2].
  repeat split; assumption.
Qed.


(** ** More on resolution *)

Module ResolveMore.

(** *** The narrowing step *)

Lemma narrow_cases p l :
  narrow p l = l \/ (narrow p l = List.filter p l /\ List.filter p l <> []).
Proof.
  unfold narrow. destruct (List.filter p l); [now left|right]. now split.
Qed.

Lemma narrow_incl p l x : In x (narrow p l) -> In x l.
Proof.
  destruct (narrow_cases p l) as [->|[-> _]]; [easy|].
  intros H. now apply List.filter_In in H.
Qed.

Lemma narrow_nonempty p l : l <> [] -> narrow p l <> [].
Proof.
  intros Hl. destruct (narrow_cases p l) as [->|[-> H]]; assumption.
Qed.

(** When something passes the test, everything kept passes it. *)
Lemma narrow_all p l x0 x :
  In x0 l -> p x0 = true -> In x (narrow p l) -> p x = true.
Proof.
  intros H0 Hp Hx. unfold narrow in Hx.
  destruct (List.filter p l) as [|y ys] eqn:Hf.
  - assert (Hin : In x0 (List.filter p l)) by (apply List.filter_In; now split).
    rewrite Hf in Hin. destruct Hin.
  - rewrite <- Hf in Hx. now apply List.filter_In in Hx.
Qed.


(** *** Candidates come from the index *)

Lemma dedup_from_incl l : forall seen x, In x (dedup_from seen l) -> In x l.
Proof.
  induction l as [|y l IH]; intros seen x; cbn [dedup_from]; [easy|].
  destruct (existsb (String.eqb y) seen).
  - intros H. right. eauto.
  - intros [->|H]; [now left|right; eauto].
Qed.

Lemma lookup_stored idx tok x : In x (lookup idx tok) -> In x (flat_map snd idx).
Proof.
  unfold lookup. induction idx as [|[k ids] rest IH]; cbn [index_get flat_map snd]; [easy|].
  destruct (String.eqb k tok); intros H; apply in_or_app; [now left|right; auto].
Qed.

Lemma partialMatches_stored idx normalized x :
  In x (partialMatches idx normalized) -> In x (flat_map snd idx).
Proof.
  unfold partialMatches. rewrite !List.in_flat_map.
  intros ([k ids] & Hin & Hx). exists (k, ids). split; [exact Hin|].
  cbn [fst snd] in *. destruct (_ || _); [exact Hx|destruct Hx].
Qed.

Lemma index_push_stored idx key id x :
  In x (flat_map snd (index_push idx key id)) -> x = id \/ In x (flat_map snd idx).
Proof.
  induction idx as [|[k ids] rest IH]; cbn [index_push flat_map snd].
  - intros [->|[]]. now left.
  - destruct (String.eqb k key); cbn [flat_map snd]; intros H;
      apply in_app_or in H as [H|H].
    + apply in_app_or in H as [H|[->|[]]]; [right; apply in_or_app; now left|now left].
    + right. apply in_or_app. now right.
    + right. apply in_or_app. now left.
    + destruct (IH H) as [->|H']; [now left|right; apply in_or_app; now right].
Qed.

Lemma built_stored data : forall idx x,
  In x (flat_map snd (fold_left index_entity data idx)) ->
  In x (flat_map snd idx) \/ In x (List.map Entity.entity_id data).
Proof.
  induction data as [|e data IH]; intros idx x H; cbn [fold_left] in H; [now left|].
  destruct (IH _ _ H) as [H'|H']; [|right; now right].
  unfold index_entity in H'.
  apply index_push_stored in H' as [->|H']; [right; now left|].
  apply index_push_stored in H' as [->|H']; [right; now left|now left].
Qed.

Lemma candidates_stored idx (cands : list string) normalized x :
  cands = match lookup idx normalized with
          | [] => dedup (partialMatches idx normalized)
          | cs => cs
          end ->
  In x cands -> In x (flat_map snd idx).
Proof.
  intros -> H. destruct (lookup idx normalized) as [|c cs] eqn:Hl.
  - apply dedup_from_incl in H. now apply partialMatches_stored in H.
  - rewrite <- Hl in H. now apply lookup_stored in H.
Qed.

(** *** What the two resolvers return *)

Lemma ts_filters_incl r a l x :
  In x (NameResolver.by_floor r a (NameResolver.by_area r a (NameResolver.by_domain a l))) ->
  In x l.
Proof.
  unfold NameResolver.by_floor, NameResolver.by_area, NameResolver.by_domain.
  intros H.
  repeat match type of H with
         | In _ (match ?o with Some _ => _ | None => _ end) => destruct o
         | In _ (if ?b then _ else _) => destruct b
         | In _ (narrow _ _) => apply narrow_incl in H
         end; exact H.
Qed.

Lemma js_filters_incl s a l x :
  In x (Bridge.by_floor s a (Bridge.by_area s a (Bridge.by_domain a l))) -> In x l.
Proof.
  unfold Bridge.by_floor, Bridge.by_area, Bridge.by_domain.
  intros H.
  repeat match type of H with
         | In _ (match ?o with Some _ => _ | None => _ end) => destruct o
         | In _ (if ?b then _ else _) => destruct b
         | In _ (narrow _ _) => apply narrow_incl in H
         end; exact H.
Qed.

Lemma first_or_null_in l c : NameResolver.first_or_null l = Some c -> In c l.
Proof.
  destruct l as [|x l]; cbn [NameResolver.first_or_null]; [discriminate|].
  destruct (String.eqb x ""); [discriminate|]. intros H. injection H as ->. now left.
Qed.

Lemma hd_error_in {A} (l : list A) c : hd_error l = Some c -> In c l.
Proof. destruct l; [discriminate|]. intros H. injection H as ->. now left. Qed.

(** Without an explicit identifier the TypeScript resolver returns a
    candidate of the name, after the filters. *)
Lemma ts_resolved r a c :
  Js.truthy (Args.entity_id a) = false ->
  NameResolver.resolveEntityId r a = Some c ->
  exists name,
    Args.name a = Some name /\ name <> ""
    /\ match NameResolver.candidates_of r name with
       | [] => False
       | [c1] => c = c1
       | cands =>
           In c (NameResolver.by_floor r a
                   (NameResolver.by_area r a (NameResolver.by_domain a cands)))
       end.
Proof.
  intros Hid. unfold NameResolver.resolveEntityId. rewrite Hid.
  destruct (Args.name a) as [name|]; cbn [Js.truthy negb]; [|discriminate].
  destruct (String.eqb name "") eqn:Hn; cbn [negb Js.or_else]; [discriminate|].
  rewrite Hn. apply String.eqb_neq in Hn. intros H. exists name.
  split; [reflexivity|]. split; [exact Hn|].
  destruct (NameResolver.candidates_of r name) as [|c1 [|c2 cs]]; [discriminate| |].
  - now injection H as ->.
  - now apply first_or_null_in.
Qed.

(** The same for server.js, where the area stands in for a missing name. *)
Lemma js_resolved s a c :
  Js.truthy (Args.entity_id a) = false ->
  Bridge.resolveEntityId s a = Some c ->
  exists searchName,
    searchName <> ""
    /\ (Args.name a = Some searchName
        \/ (Js.truthy (Args.name a) = false /\ Args.area a = Some searchName))
    /\ match Bridge.candidates_of s searchName with
       | [] => False
       | [c1] => c = c1
       | cands =>
           In c (Bridge.by_floor s a (Bridge.by_area s a (Bridge.by_domain a cands)))
       end.
Proof.
  intros Hid. unfold Bridge.resolveEntityId. rewrite Hid.
  destruct (Js.truthy (Args.name a)) eqn:Hname; cbn [negb andb].
  - destruct (Args.name a) as [name|]; cbn [Js.truthy] in Hname; [|discriminate].
    apply negb_true_iff in Hname. cbn [Js.or_else]. rewrite Hname.
    apply String.eqb_neq in Hname. intros H. exists name.
    split; [exact Hname|]. split; [now left|].
    destruct (Bridge.candidates_of s name) as [|c1 [|c2 cs]]; [discriminate| |].
    + now injection H as ->.
    + now apply hd_error_in.
  - destruct (Args.area a) as [ar|]; cbn [Js.truthy negb]; [|discriminate].
    destruct (String.eqb ar "") eqn:Har; cbn [negb Js.or_else]; [discriminate|].
    rewrite Har. apply String.eqb_neq in Har. intros H. exists ar.
    split; [exact Har|]. split; [now right|].
    destruct (Bridge.candidates_of s ar) as [|c1 [|c2 cs]]; [discriminate| |].
    + now injection H as ->.
    + now apply hd_error_in.
Qed.

Lemma ts_resolved_stored r a c :
  Js.truthy (Args.entity_id a) = false ->
  NameResolver.resolveEntityId r a = Some c ->
  In c (flat_map snd (NameResolver.nameIndex r)).
Proof.
  intros Hid H. destruct (ts_resolved r a c Hid H) as (name & _ & _ & Hc).
  destruct (NameResolver.candidates_of r name) as [|c1 cs] eqn:Hcands; [destruct Hc|].
  assert (Hin : In c (NameResolver.candidates_of r name)).
  { rewrite Hcands. destruct cs as [|c2 cs]; [subst; now left|].
    now apply ts_filters_incl in Hc. }
  eapply candidates_stored; [reflexivity|exact Hin].
Qed.

Lemma js_resolved_stored s a c :
  Js.truthy (Args.entity_id a) = false ->
  Bridge.resolveEntityId s a = Some c ->
  In c (flat_map snd (Bridge.nameIndex s)).
Proof.
  intros Hid H. destruct (js_resolved s a c Hid H) as (name & _ & _ & Hc).
  destruct (Bridge.candidates_of s name) as [|c1 cs] eqn:Hcands; [destruct Hc|].
  assert (Hin : In c (Bridge.candidates_of s name)).
  { rewrite Hcands. destruct cs as [|c2 cs]; [subst; now left|].
    now apply js_filters_incl in Hc. }
  eapply candidates_stored; [reflexivity|exact Hin].
Qed.

End ResolveMore.

(** X8.  Without an explicit identifier a resolver only ever returns the
    identifier of an entity of the registry its index was built from: it
    never makes one up, whichever hints are given and whether the match
    was exact or partial. *)
Theorem resolved_id_is_registered
        (r0 r : NameResolver.t) (s0 s : Bridge.t) (data : list Entity.t)
        (a : Args.t) (c : string) :
  Js.truthy (Args.entity_id a) = false ->
  (NameResolver.nameIndex r = NameResolver.nameIndex (NameResolver.setEntities r0 data) ->
   NameResolver.resolveEntityId r a = Some c ->
   In c (List.map Entity.entity_id data))
  /\ (Bridge.nameIndex s
      = Bridge.nameIndex (Bridge.buildEntityIndex s0 (Bridge.States data)) ->
      Bridge.resolveEntityId s a = Some c ->
      In c (List.map Entity.entity_id data)).
Proof.
  intros Hid. split; intros Hidx Hres.
  - apply (ResolveMore.ts_resolved_stored r a c Hid) in Hres.
    rewrite Hidx, IndexFacts.setEntities_nameIndex in Hres.
    now apply ResolveMore.built_stored in Hres as [[]|H].
  - apply (ResolveMore.js_resolved_stored s a c Hid) in Hres.
    cbn [Bridge.buildEntityIndex] in Hidx.
    rewrite Hidx, IndexFacts.rebuild_nameIndex in Hres.
    now apply ResolveMore.built_stored in Hres as [[]|H].
Qed.

Lemma resolved_id_is_registered_witness :
  In "fan.den_fan"
     (List.map Entity.entity_id [Examples.den_fan; Examples.bedroom_fan]).
Proof.
  assert (Hid : Js.truthy (Args.entity_id Examples.bedroom_fan_query) = false)
    by reflexivity.
  refine (proj1 (resolved_id_is_registered NameResolver.empty Examples.fans_resolver
                   Bridge.empty Examples.fans_server
                   [Examples.den_fan; Examples.bedroom_fan]
                   Examples.bedroom_fan_query "fan.den_fan" Hid) _ _).
  - vm_compute. reflexivity.
  - vm_compute. reflexivity.
Defined.

Module TieBreak.




End TieBreak.



(** X10.  The domain hint is a preference that later filters cannot undo:
    when at least one candidate of the name lies in the hinted domain, the
    resolved identifier lies in that domain, whatever the area and floor
    hints do.  (When no candidate lies in the domain the hint is dropped.) *)
Theorem domain_hint_respected
        (r : NameResolver.t) (s : Bridge.t) (a : Args.t) (name d c0 c : string) :
  Js.truthy (Args.entity_id a) = false ->
  Args.name a = Some name -> name <> "" ->
  Args.domain a = Some d -> d <> "" ->
  in_domain d c0 = true ->
  (In c0 (NameResolver.candidates_of r name) ->
   NameResolver.resolveEntityId r a = Some c -> in_domain d c = true)
  /\ (In c0 (Bridge.candidates_of s name) ->
      Bridge.resolveEntityId s a = Some c -> in_domain d c = true).
Proof.
  intros Hid Hname Hne Hdom Hd Hc0. apply String.eqb_neq in Hd.
  split; intros Hin Hres.
  - destruct (ResolveMore.ts_resolved r a c Hid Hres) as (name' & Hn' & _ & Hc).
    rewrite Hname in Hn'. injection Hn' as <-.
    destruct (NameResolver.candidates_of r name) as [|c1 [|c2 cs]] eqn:Hcands;
      [destruct Hc| |].
    + subst c. now destruct Hin as [<-|[]].
    + unfold NameResolver.by_floor, NameResolver.by_area in Hc.
      assert (Hc' : In c (NameResolver.by_domain a (c1 :: c2 :: cs))).
      { repeat match type of Hc with
               | In _ (match ?o with Some _ => _ | None => _ end) => destruct o
               | In _ (if ?b then _ else _) => destruct b
               | In _ (narrow (NameResolver.area_matches _ _) _) =>
                   apply ResolveMore.narrow_incl in Hc
               | In _ (narrow (NameResolver.floor_matches _ _) _) =>
                   apply ResolveMore.narrow_incl in Hc
               end; exact Hc. }
      unfold NameResolver.by_domain in Hc'. rewrite Hdom, Hd in Hc'.
      exact (ResolveMore.narrow_all _ _ c0 c Hin Hc0 Hc').
  - destruct (ResolveMore.js_resolved s a c Hid Hres) as (name' & _ & Hn' & Hc).
    destruct Hn' as [Hn'|[Hn' _]].
    2:{ rewrite Hname in Hn'. cbn [Js.truthy] in Hn'.
        apply String.eqb_neq in Hne. rewrite Hne in Hn'. discriminate. }
    rewrite Hname in Hn'. injection Hn' as <-.
    destruct (Bridge.candidates_of s name) as [|c1 [|c2 cs]] eqn:Hcands;
      [destruct Hc| |].
    + subst c. now destruct Hin as [<-|[]].
    + unfold Bridge.by_floor, Bridge.by_area in Hc.
      assert (Hc' : In c (Bridge.by_domain a (c1 :: c2 :: cs))).
      { repeat match type of Hc with
               | In _ (match ?o with Some _ => _ | None => _ end) => destruct o
               | In _ (if ?b then _ else _) => destruct b
               | In _ (narrow (Bridge.area_matches _ _) _) =>
                   apply ResolveMore.narrow_incl in Hc
               | In _ (narrow (Bridge.floor_matches _ _) _) =>
                   apply ResolveMore.narrow_incl in Hc
               end; exact Hc. }
      unfold Bridge.by_domain in Hc'. rewrite Hdom, Hd in Hc'.
      exact (ResolveMore.narrow_all _ _ c0 c Hin Hc0 Hc').
Qed.

Lemma domain_hint_respected_witness :
  in_domain "fan" "fan.den_fan" = true.
Proof.
  assert (Hid : Js.truthy (Args.entity_id
                  (Args.mk None (Some "fan") None None (Some "fan"))) = false)
    by reflexivity.
  assert (Hd : "fan" <> "") by discriminate.
  assert (Hc0 : in_domain "fan" "fan.bedroom_fan" = true) by reflexivity.
  refine (proj1 (domain_hint_respected Examples.fans_resolver Examples.fans_server
                   (Args.mk None (Some "fan") None None (Some "fan"))
                   "fan" "fan" "fan.bedroom_fan" "fan.den_fan"
                   Hid eq_refl Hd eq_refl Hd Hc0) _ _).
  - vm_compute. right. left. reflexivity.
  - vm_compute. reflexivity.
Defined.

Module AreaHint.

Lemma by_domain_short_ts a l : List.length l <= 1 -> List.length (NameResolver.by_domain a l) <= 1.
Proof.
  unfold NameResolver.by_domain, narrow. intros Hl.
  destruct (Args.domain a) as [d|]; [|exact Hl].
  destruct (String.eqb d ""); [exact Hl|].
  destruct l as [|x [|y l]]; cbn [List.filter List.length] in *; [lia| |lia].
  destruct (in_domain d x); cbn [List.length]; lia.
Qed.

Lemma by_domain_short_js a l : List.length l <= 1 -> List.length (Bridge.by_domain a l) <= 1.
Proof. exact (by_domain_short_ts a l). Qed.

End AreaHint.

(** X11.  When the area filter runs (an area hint is given and more than
    one candidate is left after the domain step) and at least one of
    those candidates passes it, the resolved identifier passes it too:
    the floor filter only narrows further. *)
Theorem area_hint_respected
        (r : NameResolver.t) (s : Bridge.t) (a : Args.t) (name ar c0 c : string) :
  Js.truthy (Args.entity_id a) = false ->
  Args.name a = Some name -> name <> "" ->
  Args.area a = Some ar -> ar <> "" ->
  (1 < List.length (NameResolver.by_domain a (NameResolver.candidates_of r name)) ->
   In c0 (NameResolver.by_domain a (NameResolver.candidates_of r name)) ->
   NameResolver.area_matches r ar c0 = true ->
   NameResolver.resolveEntityId r a = Some c ->
   NameResolver.area_matches r ar c = true)
  /\ (1 < List.length (Bridge.by_domain a (Bridge.candidates_of s name)) ->
      In c0 (Bridge.by_domain a (Bridge.candidates_of s name)) ->
      Bridge.area_matches s ar c0 = true ->
      Bridge.resolveEntityId s a = Some c ->
      Bridge.area_matches s ar c = true).
Proof.
  intros Hid Hname Hne Harea Har. apply String.eqb_neq in Har.
  split; intros Hlen Hin Hc0 Hres.
  - destruct (ResolveMore.ts_resolved r a c Hid Hres) as (name' & Hn' & _ & Hc).
    rewrite Hname in Hn'. injection Hn' as <-.
    destruct (NameResolver.candidates_of r name) as [|c1 [|c2 cs]] eqn:Hcands.
    + destruct Hc.
    + pose proof (AreaHint.by_domain_short_ts a [c1]) as Hs. cbn [List.length] in Hs. lia.
    + set (narrowed := NameResolver.by_domain a (c1 :: c2 :: cs)) in *.
      unfold NameResolver.by_floor, NameResolver.by_area in Hc.
      rewrite Harea, Har in Hc. apply Nat.ltb_lt in Hlen. rewrite Hlen in Hc.
      cbn [negb andb] in Hc.
      assert (Hc' : In c (narrow (NameResolver.area_matches r ar) narrowed)).
      { repeat match type of Hc with
               | In _ (match ?o with Some _ => _ | None => _ end) => destruct o
               | In _ (if ?b then _ else _) => destruct b
               | In _ (narrow (NameResolver.floor_matches _ _) _) =>
                   apply ResolveMore.narrow_incl in Hc
               end; exact Hc. }
      exact (ResolveMore.narrow_all _ _ c0 c Hin Hc0 Hc').
  - destruct (ResolveMore.js_resolved s a c Hid Hres) as (name' & _ & Hn' & Hc).
    destruct Hn' as [Hn'|[Hn' _]].
    2:{ rewrite Hname in Hn'. cbn [Js.truthy] in Hn'.
        apply String.eqb_neq in Hne. rewrite Hne in Hn'. discriminate. }
    rewrite Hname in Hn'. injection Hn' as <-.
    destruct (Bridge.candidates_of s name) as [|c1 [|c2 cs]] eqn:Hcands.
    + destruct Hc.
    + pose proof (AreaHint.by_domain_short_js a [c1]) as Hs. cbn [List.length] in Hs. lia.
    + set (narrowed := Bridge.by_domain a (c1 :: c2 :: cs)) in *.
      unfold Bridge.by_floor, Bridge.by_area in Hc.
      rewrite Harea, Har in Hc. apply Nat.ltb_lt in Hlen. rewrite Hlen in Hc.
      cbn [negb andb] in Hc.
      assert (Hc' : In c (narrow (Bridge.area_matches s ar) narrowed)).
      { repeat match type of Hc with
               | In _ (match ?o with Some _ => _ | None => _ end) => destruct o
               | In _ (if ?b then _ else _) => destruct b
               | In _ (narrow (Bridge.floor_matches _ _) _) =>
                   apply ResolveMore.narrow_incl in Hc
               end; exact Hc. }
      exact (ResolveMore.narrow_all _ _ c0 c Hin Hc0 Hc').
Qed.

Lemma area_hint_respected_witness :
  NameResolver.area_matches
    (loaded_resolver NameResolver.empty [Examples.den_fan; Examples.attic_fan]
       Examples.attic_areas [])
    "the attic" "fan.attic_fan" = true.
Proof.
  set (r := loaded_resolver NameResolver.empty [Examples.den_fan; Examples.attic_fan]
              Examples.attic_areas []).
  assert (Hid : Js.truthy (Args.entity_id Examples.attic_query) = false) by reflexivity.
  assert (Hn : "fan" <> "") by discriminate.
  assert (Ha : "the attic" <> "") by discriminate.
  refine (proj1 (area_hint_respected r Bridge.empty Examples.attic_query
                   "fan" "the attic" "fan.attic_fan" "fan.attic_fan"
                   Hid eq_refl Hn eq_refl Ha) _ _ _ _).
  - vm_compute. lia.
  - vm_compute. right. left. reflexivity.
  - vm_compute. reflexivity.
  - vm_compute. reflexivity.
Defined.

Module Port.








End Port.



(** ** More on the fuzzy search *)

Module FuzzyMore.

Lemma differs_at_sym a b i : Bridge.differs_at a b i = Bridge.differs_at b a i.
Proof.
  unfold Bridge.differs_at.
  destruct (String.get i a) as [x|], (String.get i b) as [y|]; try reflexivity.
  now rewrite Ascii.eqb_sym.
Qed.

Lemma differs_at_refl a i : Bridge.differs_at a a i = false.
Proof.
  unfold Bridge.differs_at. destruct (String.get i a); [|reflexivity].
  now rewrite Ascii.eqb_refl.
Qed.

Lemma abs_diff_sym a b : Bridge.abs_diff a b = Bridge.abs_diff b a.
Proof. unfold Bridge.abs_diff. lia. Qed.

Lemma filter_none {A} (p : A -> bool) l :
  (forall x, p x = false) -> List.filter p l = [].
Proof.
  intros H. induction l as [|x l IH]; [reflexivity|].
  cbn [List.filter]. now rewrite H.
Qed.

End FuzzyMore.

(** X13.  The near-match test does not depend on the order of its two
    arguments, and every token is a near match of itself. *)
Theorem fuzzyMatch_symmetric_reflexive (str1 str2 : string) :
  Bridge.fuzzyMatch str1 str2 = Bridge.fuzzyMatch str2 str1
  /\ Bridge.fuzzyMatch str1 str1 = true.
Proof.
  unfold Bridge.fuzzyMatch. rewrite !FuzzyMatchFacts.fuzzy_loop_counts. split.
  - rewrite (FuzzyMore.abs_diff_sym (String.length str2)), (Nat.max_comm (String.length str2)).
    rewrite (List.filter_ext (Bridge.differs_at str2 str1) (Bridge.differs_at str1 str2));
      [reflexivity|].
    intros i. apply FuzzyMore.differs_at_sym.
  - unfold Bridge.abs_diff. rewrite Nat.sub_diag. cbn [Nat.add Nat.ltb Nat.leb].
    rewrite FuzzyMore.filter_none; [reflexivity|].
    intros i. apply FuzzyMore.differs_at_refl.
Qed.

Module SearchMore.
Import Bridge Ranking.

Local Open Scope Z_scope.

Lemma in_firstn {A} n (l : list A) x : In x (firstn n l) -> In x l.
Proof.
  revert n. induction l as [|y l IH]; intros n; [now rewrite firstn_nil|].
  destruct n as [|n]; [intros []|]. cbn [firstn].
  intros [->|H]; [now left|right; eauto].
Qed.

Lemma descending_firstn n l : descending l -> descending (firstn n l).
Proof.
  unfold descending. revert n.
  induction l as [|x l IH]; intros n Hs; [now rewrite firstn_nil|].
  destruct n as [|n]; [constructor|]. cbn [firstn].
  apply StronglySorted_inv in Hs as [Hl Hx].
  constructor; [now apply IH|].
  rewrite List.Forall_forall in *. intros y Hy. apply Hx.
  eapply in_firstn; eauto.
Qed.

Lemma slice0_firstn {A} (l : list A) e : exists n, slice0 l e = firstn n l.
Proof. unfold slice0. destruct (e <? 0); eauto. Qed.

Lemma in_ranking_inv s a nq h :
  In h (ranking s a nq) ->
  0 < Hit.score h /\ exists kv, In kv (entities s) /\ h = hit_of s a nq kv.
Proof.
  unfold ranking. intros H.
  apply (Permutation_in _ (RankingFacts.sort_by_score_perm _)) in H.
  unfold scored in H. apply List.filter_In in H as [H Hpos].
  apply List.in_map_iff in H as (kv & <- & Hkv).
  split; [now apply Z.ltb_lt|]. now exists kv.
Qed.

Lemma hit_fields s a nq kv :
  Hit.entity_id (hit_of s a nq kv) = fst kv
  /\ Hit.relevance (hit_of s a nq kv) = relevance_of (Hit.score (hit_of s a nq kv)).
Proof. now destruct kv. Qed.

(** *** Stability of the sort *)

Lemma filter_sort_insert p h l :
  (forall x y, p x = true -> Hit.score x < Hit.score y -> p y = false) ->
  List.filter p (sort_insert h l)
  = if p h then h :: List.filter p l else List.filter p l.
Proof.
  intros Hp. induction l as [|x l IH]; cbn [sort_insert List.filter]; [reflexivity|].
  destruct (Hit.score h <? Hit.score x) eqn:Hlt; cbn [List.filter].
  - apply Z.ltb_lt in Hlt. rewrite IH.
    destruct (p h) eqn:Hh; [|reflexivity].
    now rewrite (Hp h x Hh Hlt).
  - reflexivity.
Qed.

Lemma filter_sort p l :
  (forall x y, p x = true -> Hit.score x < Hit.score y -> p y = false) ->
  List.filter p (sort_by_score l) = List.filter p l.
Proof.
  intros Hp. induction l as [|h l IH]; [reflexivity|].
  cbn [sort_by_score fold_right List.filter]. fold (sort_by_score l).
  rewrite (filter_sort_insert p h _ Hp), IH. reflexivity.
Qed.

(** *** Lower bounds of the score *)

Lemma includes_of_prefix s p : String.prefix p s = true -> Js.includes s p = true.
Proof. intros H. destruct s; cbn [Js.includes]; now rewrite H. Qed.

Lemma contains_of_prefix nn ni nq :
  is_prefix nn ni nq = true -> 200 <= contains_score nn ni nq.
Proof.
  unfold is_prefix, Js.startsWith, contains_score. intros H.
  apply orb_true_iff in H as [H|H]; rewrite (includes_of_prefix _ _ H);
    repeat match goal with |- context [if ?b then _ else _] => destruct b end; lia.
Qed.

Lemma other_signals_parts s a nq id entity :
  contains_score (normalizeName (search_name id entity)) (normalizeName id) nq
  + domain_bonus a id - 50
  <= other_signals s a nq id entity.
Proof.
  unfold other_signals, area_bonus, unavailable_penalty.
  pose proof (RankingFacts.token_score_nonneg
                (normalizeName (search_name id entity)) (normalizeName id) (words nq)).
  repeat match goal with
         | |- context [if ?b then _ else _] => destruct b
         | |- context [match ?o with Some _ => _ | None => _ end] => destruct o
         end; lia.
Qed.

Lemma contains_score_nonneg nn ni nq : 0 <= contains_score nn ni nq.
Proof.
  unfold contains_score.
  repeat match goal with |- context [if ?b then _ else _] => destruct b end; lia.
Qed.

Lemma domain_bonus_nonneg a id : 0 <= domain_bonus a id.
Proof.
  unfold domain_bonus. destruct (SearchArgs.domain_hint a); [|lia].
  destruct (_ && _); lia.
Qed.

Lemma score_parts s a nq kv :
  exact_score (normalized_name kv) (normalized_id kv) nq
  + prefix_score (normalized_name kv) (normalized_id kv) nq
  + contains_score (normalized_name kv) (normalized_id kv) nq
  + domain_bonus a (fst kv) - 50
  <= Hit.score (hit_of s a nq kv).
Proof.
  rewrite RankingFacts.hit_score. unfold score_of, normalized_name, normalized_id.
  pose proof (other_signals_parts s a nq (fst kv) (snd kv)). lia.
Qed.

Lemma exact_score_nonneg nn ni nq : 0 <= exact_score nn ni nq.
Proof. unfold exact_score. destruct (is_exact nn ni nq); lia. Qed.

Lemma prefix_score_nonneg nn ni nq : 0 <= prefix_score nn ni nq.
Proof. unfold prefix_score. destruct (is_prefix nn ni nq); lia. Qed.

Lemma relevance_high z : 500 <= z -> relevance_of z = "high".
Proof. intros H. unfold relevance_of. apply Z.leb_le in H. now rewrite H. Qed.

End SearchMore.

(** X14.  A search with a usable query returns hits of positive score
    only, in descending order of score, each for an entity of the
    registry and labelled by its score, and no more of them than the
    limit (ten when no limit is given). *)
Theorem search_results_well_formed
        (s : Bridge.t) (a : Bridge.SearchArgs.t) (results : list Bridge.Hit.t) :
  Bridge.searchEntitiesFuzzy s a = inr results ->
  Ranking.descending results
  /\ Forall (fun h =>
               (0 < Bridge.Hit.score h)%Z
               /\ Bridge.Hit.relevance h = Bridge.relevance_of (Bridge.Hit.score h)
               /\ exists e, In (Bridge.Hit.entity_id h, e) (Bridge.entities s))
            results
  /\ (forall limit, Bridge.SearchArgs.limit a = Some limit -> (0 <= limit)%Z ->
                    List.length results <= Z.to_nat limit)
  /\ (Bridge.SearchArgs.limit a = None -> List.length results <= 10).
Proof.
  unfold Bridge.searchEntitiesFuzzy.
  destruct (negb (Js.truthy (Bridge.SearchArgs.query a))); [discriminate|].
  intros H. injection H as <-.
  set (nq := normalizeName (Js.or_else (Bridge.SearchArgs.query a) "")).
  fold (Ranking.ranking s a nq).
  split; [|split; [|split]].
  - destruct (SearchMore.slice0_firstn (Ranking.ranking s a nq)
                match Bridge.SearchArgs.limit a with Some n => n | None => 10%Z end)
      as [n ->].
    apply SearchMore.descending_firstn, RankingFacts.sort_by_score_descending.
  - destruct (SearchMore.slice0_firstn (Ranking.ranking s a nq)
                match Bridge.SearchArgs.limit a with Some n => n | None => 10%Z end)
      as [n ->].
    apply List.Forall_forall. intros h Hh.
    apply SearchMore.in_firstn in Hh.
    apply SearchMore.in_ranking_inv in Hh as (Hpos & kv & Hkv & ->).
    destruct (SearchMore.hit_fields s a nq kv) as [Hid Hrel].
    split; [exact Hpos|]. split; [exact Hrel|].
    exists (snd kv). rewrite Hid. now destruct kv.
  - intros limit -> Hl. unfold slice0.
    destruct (limit <? 0)%Z eqn:Hneg; [apply Z.ltb_lt in Hneg; lia|].
    apply firstn_le_length.
  - intros ->. unfold slice0. cbn [Z.ltb Z.compare]. apply firstn_le_length.
Qed.

Lemma search_results_well_formed_witness :
  exists results,
    Bridge.searchEntitiesFuzzy Examples.lamps_server Examples.lamp_search = inr results
    /\ Ranking.descending results.
Proof.
  assert (H : Bridge.searchEntitiesFuzzy Examples.lamps_server Examples.lamp_search
              = inr (slice0 (Ranking.ranking Examples.lamps_server Examples.lamp_search
                               "lamp") 5%Z)) by reflexivity.
  eexists. split; [exact H|].
  exact (proj1 (search_results_well_formed _ _ _ H)).
Defined.

(** X15.  The sort is stable: hits of equal score appear in the ranking
    in the order in which the registry lists their entities. *)
Theorem ranking_is_stable (s : Bridge.t) (a : Bridge.SearchArgs.t) (nq : string) (z : Z) :
  List.filter (fun h => Z.eqb (Bridge.Hit.score h) z) (Ranking.ranking s a nq)
  = List.filter (fun h => Z.eqb (Bridge.Hit.score h) z) (Bridge.scored s a nq).
Proof.
  unfold Ranking.ranking. apply SearchMore.filter_sort.
  intros x y Hx Hlt. apply Z.eqb_eq in Hx. apply Z.eqb_neq. lia.
Qed.

Module SearchBounds.
Import Bridge Ranking.

Local Open Scope Z_scope.

(** A candidate that starts with the query scores at least 650. *)
Lemma prefix_bound s a nq kv :
  is_prefix (normalized_name kv) (normalized_id kv) nq = true ->
  650 <= Hit.score (hit_of s a nq kv).
Proof.
  intros Hp.
  pose proof (SearchMore.score_parts s a nq kv) as H.
  pose proof (SearchMore.contains_of_prefix _ _ _ Hp).
  pose proof (SearchMore.exact_score_nonneg (normalized_name kv) (normalized_id kv) nq).
  pose proof (SearchMore.domain_bonus_nonneg a (fst kv)).
  unfold prefix_score in H. rewrite Hp in H. lia.
Qed.

Lemma prefix_empty s : String.prefix "" s = true.
Proof. now destruct s. Qed.

Lemma includes_empty s : Js.includes s "" = true.
Proof. destruct s; reflexivity. Qed.

Lemma empty_query_bound s a kv : 900 <= Hit.score (hit_of s a "" kv).
Proof.
  pose proof (SearchMore.score_parts s a "" kv) as H.
  pose proof (SearchMore.exact_score_nonneg (normalized_name kv) (normalized_id kv) "").
  pose proof (SearchMore.domain_bonus_nonneg a (fst kv)).
  unfold prefix_score, is_prefix, Js.startsWith, contains_score in H.
  rewrite !prefix_empty, !includes_empty in H. cbn [orb] in H. lia.
Qed.

Lemma filter_all {A} (p : A -> bool) l :
  (forall x, In x l -> p x = true) -> List.filter p l = l.
Proof.
  induction l as [|x l IH]; intros H; [reflexivity|]. cbn [List.filter].
  rewrite (H x (or_introl eq_refl)). f_equal. apply IH. intros y Hy. apply H. now right.
Qed.

End SearchBounds.

(** X16.  Every entity whose normalized name or identifier starts with
    the normalized query (an exact match included) is found by the search
    with a score of at least 650, hence with relevance "high", whatever
    its state and whatever hints are given. *)
Theorem prefix_match_is_high
        (s : Bridge.t) (a : Bridge.SearchArgs.t) (nq : string) (kv : string * Entity.t) :
  In kv (Bridge.entities s) ->
  Bridge.is_prefix (Ranking.normalized_name kv) (Ranking.normalized_id kv) nq = true ->
  In (Bridge.hit_of s a nq kv) (Ranking.ranking s a nq)
  /\ (650 <= Bridge.Hit.score (Bridge.hit_of s a nq kv))%Z
  /\ Bridge.Hit.relevance (Bridge.hit_of s a nq kv) = "high".
Proof.
  intros Hin Hp. pose proof (SearchBounds.prefix_bound s a nq kv Hp) as Hb.
  split; [apply RankingFacts.in_ranking; [exact Hin|lia]|].
  split; [exact Hb|].
  rewrite (proj2 (SearchMore.hit_fields s a nq kv)).
  apply SearchMore.relevance_high. lia.
Qed.

Lemma prefix_match_is_high_witness :
  Bridge.Hit.relevance
    (Bridge.hit_of Examples.lamps_server Examples.lamp_search "lamp"
       ("light.lamp_left", Examples.lamp_left)) = "high".
Proof.
  refine (proj2 (proj2 (prefix_match_is_high Examples.lamps_server Examples.lamp_search
                          "lamp" ("light.lamp_left", Examples.lamp_left) _ _))).
  - left. reflexivity.
  - vm_compute. reflexivity.
Defined.

(** X17.  A query without a letter or digit (it normalizes to the empty
    token) matches everything: every entity of the registry is ranked,
    with a score of at least 900. *)
Theorem empty_token_matches_all
        (s : Bridge.t) (a : Bridge.SearchArgs.t) (q : string) :
  normalizeName q = "" ->
  List.length (Ranking.ranking s a (normalizeName q)) = List.length (Bridge.entities s)
  /\ forall kv, In kv (Bridge.entities s) ->
       In (Bridge.hit_of s a (normalizeName q) kv) (Ranking.ranking s a (normalizeName q))
       /\ (900 <= Bridge.Hit.score (Bridge.hit_of s a (normalizeName q) kv))%Z.
Proof.
  intros ->. split.
  - unfold Ranking.ranking.
    rewrite (Permutation_length (RankingFacts.sort_by_score_perm _)).
    unfold Bridge.scored. rewrite SearchBounds.filter_all; [apply List.length_map|].
    intros h Hh. apply List.in_map_iff in Hh as (kv & <- & _).
    pose proof (SearchBounds.empty_query_bound s a kv). apply Z.ltb_lt. lia.
  - intros kv Hin. pose proof (SearchBounds.empty_query_bound s a kv) as Hb.
    split; [apply RankingFacts.in_ranking; [exact Hin|lia]|exact Hb].
Qed.

Lemma empty_token_matches_all_witness :
  List.length (Ranking.ranking Examples.lamps_server Examples.lamp_search
                 (normalizeName "?!"))
  = List.length (Bridge.entities Examples.lamps_server).
Proof.
  apply (empty_token_matches_all Examples.lamps_server Examples.lamp_search "?!").
  vm_compute. reflexivity.
Defined.

(** X18.  A domain hint finds on its own: every entity of the hinted
    domain is ranked with a score of at least 100, whether or not its
    name has anything to do with the query, and even when the entity is
    unavailable. *)
Theorem domain_hint_matches_domain
        (s : Bridge.t) (a : Bridge.SearchArgs.t) (nq d : string) (kv : string * Entity.t) :
  In kv (Bridge.entities s) ->
  Bridge.SearchArgs.domain_hint a = Some d ->
  d <> "" ->
  in_domain d (fst kv) = true ->
  In (Bridge.hit_of s a nq kv) (Ranking.ranking s a nq)
  /\ (100 <= Bridge.Hit.score (Bridge.hit_of s a nq kv))%Z.
Proof.
  intros Hin Hd Hne Hdom.
  assert (Hb : (100 <= Bridge.Hit.score (Bridge.hit_of s a nq kv))%Z).
  { pose proof (SearchMore.score_parts s a nq kv) as H.
    pose proof (SearchMore.exact_score_nonneg
                  (Ranking.normalized_name kv) (Ranking.normalized_id kv) nq).
    pose proof (SearchMore.prefix_score_nonneg
                  (Ranking.normalized_name kv) (Ranking.normalized_id kv) nq).
    pose proof (SearchMore.contains_score_nonneg
                  (Ranking.normalized_name kv) (Ranking.normalized_id kv) nq).
    unfold Bridge.domain_bonus in H. rewrite Hd, Hdom in H.
    apply String.eqb_neq in Hne. rewrite Hne in H. cbn [negb andb] in H. lia. }
  split; [apply RankingFacts.in_ranking; [exact Hin|lia]|exact Hb].
Qed.

Lemma domain_hint_matches_domain_witness :
  (100 <= Bridge.Hit.score
            (Bridge.hit_of Examples.lights_server
               (Bridge.SearchArgs.mk (Some "zzz") None (Some "switch") None) "zzz"
               ("switch.porch", Examples.porch_switch)))%Z.
Proof.
  assert (Hd : "switch" <> "") by discriminate.
  refine (proj2 (domain_hint_matches_domain Examples.lights_server
                   (Bridge.SearchArgs.mk (Some "zzz") None (Some "switch") None) "zzz"
                   "switch" ("switch.porch", Examples.porch_switch) _ eq_refl Hd _)).
  - left. reflexivity.
  - reflexivity.
Defined.

(** ** More on the cache *)

Module CacheMore.
Import CacheManager.

Local Open Scope Z_scope.

Section WithPayload.
Context {T : Type}.
Implicit Types (c : CacheManager.t T) (key : string) (d : data T).

Lemma with_memory_id c : with_memory c (memoryCache c) = c.
Proof. now destruct c. Qed.

(** A [get] that finds no fresh record in memory and a fresh one on disk
    returns its data and copies it into memory. *)
Lemma get_disk_hit c key r now1 now2 :
  (forall m, memoryCache c !! key = Some m -> fresh now1 m = false) ->
  disk c !! key = Some (Parsed r) -> fresh now2 r = true ->
  get c key now1 now2
  = (cached_data r, with_memory c (<[key := r]> (memoryCache c))).
Proof.
  intros Hm Hd Hf. unfold get, get_disk. rewrite Hd, Hf.
  destruct (memoryCache c !! key) as [m|] eqn:E; [|reflexivity].
  now rewrite (Hm m eq_refl).
Qed.


Lemma get_cacheTTL c key now1 now2 :
  cacheTTL (snd (get c key now1 now2)) = cacheTTL c.
Proof.
  unfold get, get_disk.
  destruct (memoryCache c !! key) as [m|]; [destruct (fresh now1 m); [reflexivity|]|];
    destruct (disk c !! key) as [[r|]|]; try reflexivity;
    destruct (fresh now2 r); reflexivity.
Qed.

(** A second [get] at the same clock readings finds what the first one
    left and changes nothing more. *)
Lemma get_twice c key now1 now2 :
  get (snd (get c key now1 now2)) key now1 now2 = get c key now1 now2.
Proof.
  unfold get, get_disk.
  destruct (memoryCache c !! key) as [m|] eqn:Hm.
  - destruct (fresh now1 m) eqn:Hf; cbn [snd].
    + now rewrite Hm, Hf.
    + destruct (disk c !! key) as [[r|]|] eqn:Hd; cbn [snd];
        try (now rewrite Hm, Hf, Hd).
      destruct (fresh now2 r) eqn:Hr; cbn [snd]; [|now rewrite Hm, Hf, Hd, Hr].
      cbn [memoryCache with_memory disk]. rewrite lookup_insert_eq, Hd, Hr.
      destruct (fresh now1 r); [reflexivity|].
      unfold with_memory. cbn. now rewrite insert_insert_eq.
  - destruct (disk c !! key) as [[r|]|] eqn:Hd; cbn [snd];
      try (now rewrite Hm, Hd).
    destruct (fresh now2 r) eqn:Hr; cbn [snd]; [|now rewrite Hm, Hd, Hr].
    cbn [memoryCache with_memory disk]. rewrite lookup_insert_eq, Hd, Hr.
    destruct (fresh now1 r); [reflexivity|].
    unfold with_memory. cbn. now rewrite insert_insert_eq.
Qed.

End WithPayload.
End CacheMore.

(** X19.  On a hit [getOrFetch] returns the cached value without running
    the fetch function (the world is left as it was) and without writing
    the durable tier. *)
Theorem getOrFetch_hit_skips_fetch {T E Env : Type}
        (c : CacheManager.t T) (k : string) (fetchFn : CacheManager.fetcher T E Env)
        (ttl : option Z) (tm : CacheManager.timing) (env : Env) (v : T) :
  fst (CacheManager.get c k (CacheManager.now_mem tm) (CacheManager.now_disk tm))
  = CacheManager.Value v ->
  exists c1,
    CacheManager.getOrFetch c k fetchFn ttl tm env = (inr (CacheManager.Value v), c1, env)
    /\ CacheManager.disk c1 = CacheManager.disk c
    /\ CacheManager.get c1 k (CacheManager.now_mem tm) (CacheManager.now_disk tm)
       = (CacheManager.Value v, c1).
Proof.
  intros Hget.
  pose proof (CacheFacts.get_disk_unchanged c k (CacheManager.now_mem tm)
                (CacheManager.now_disk tm)) as Hdisk.
  pose proof (CacheMore.get_twice c k (CacheManager.now_mem tm)
                (CacheManager.now_disk tm)) as Htwice.
  unfold CacheManager.getOrFetch.
  destruct (CacheManager.get c k (CacheManager.now_mem tm) (CacheManager.now_disk tm))
    as [got c1] eqn:Hg.
  cbn [fst snd] in *. subst got. exists c1. now repeat split.
Qed.

Lemma getOrFetch_hit_skips_fetch_witness :
  let c := CacheManager.set Examples.fresh_cache "areas" (CacheManager.Value "[]")
             None 0%Z CacheManager.Done in
  exists c1,
    CacheManager.getOrFetch c "areas" Examples.failing_fetch None
      (CacheManager.mkTiming 10 10 10 CacheManager.Done) 0%nat
    = (inr (CacheManager.Value "[]"), c1, 0%nat).
Proof.
  intros c.
  destruct (getOrFetch_hit_skips_fetch c "areas" Examples.failing_fetch None
              (CacheManager.mkTiming 10 10 10 CacheManager.Done) 0%nat "[]" eq_refl)
    as (c1 & H & _).
  now exists c1.
Defined.

(** X20.  A second [get] at the same clock readings returns what the
    first returned and leaves the cache as the first left it: promoting a
    durable record into memory happens once. *)
Theorem get_is_idempotent {T : Type} (c : CacheManager.t T) (k : string)
        (now_mem now_disk : Z) :
  CacheManager.get (snd (CacheManager.get c k now_mem now_disk)) k now_mem now_disk
  = CacheManager.get c k now_mem now_disk
  /\ CacheManager.disk (snd (CacheManager.get c k now_mem now_disk))
     = CacheManager.disk c.
Proof.
  split; [apply CacheMore.get_twice|apply CacheFacts.get_disk_unchanged].
Qed.

(** X21.  After a miss and a fetch that resolved to a value, the value is
    cached: a later [getOrFetch] for the key whose in-memory check falls
    within the ttl returns it without running its fetch function and
    without changing the cache, whether or not the file write went
    through. *)
Theorem getOrFetch_fetches_once {T E Env : Type}
        (c : CacheManager.t T) (k : string) (fetchFn : CacheManager.fetcher T E Env)
        (ttl : option Z) (tm : CacheManager.timing) (env env1 : Env) (v : T) :
  fst (CacheManager.get c k (CacheManager.now_mem tm) (CacheManager.now_disk tm))
  = CacheManager.Null ->
  fetchFn env = (CacheManager.Resolves (CacheManager.Value v), env1) ->
  exists c1 life,
    CacheManager.getOrFetch c k fetchFn ttl tm env
    = (inr (CacheManager.Value v), c1, env1)
    /\ life = match ttl with Some n => n | None => CacheManager.cacheTTL c end
    /\ forall (fetchFn' : CacheManager.fetcher T E Env) ttl' tm' env',
        (CacheManager.now_mem tm' - CacheManager.now_set tm < life)%Z ->
        CacheManager.getOrFetch c1 k fetchFn' ttl' tm' env'
        = (inr (CacheManager.Value v), c1, env').
Proof.
  intros Hget Hfetch.
  destruct (CacheManager.get c k (CacheManager.now_mem tm) (CacheManager.now_disk tm))
    as [got c0] eqn:Hg.
  cbn [fst] in Hget. subst got.
  assert (Httl : CacheManager.cacheTTL c0 = CacheManager.cacheTTL c).
  { pose proof (CacheMore.get_cacheTTL c k (CacheManager.now_mem tm)
                  (CacheManager.now_disk tm)) as H.
    now rewrite Hg in H. }
  exists (CacheManager.set c0 k (CacheManager.Value v) ttl (CacheManager.now_set tm)
            (CacheManager.write tm)),
         (CacheManager.stored_ttl c0 ttl).
  split; [|split].
  - rewrite (NullFacts.getOrFetch_after_null c k fetchFn ttl tm env c0 Hg).
    now rewrite Hfetch.
  - unfold CacheManager.stored_ttl. now rewrite Httl.
  - intros fetchFn' ttl' tm' env' Hfresh.
    pose proof (CacheFacts.set_memory c0 k (CacheManager.Value v) ttl
                  (CacheManager.now_set tm) (CacheManager.write tm)) as Hmem.
    unfold CacheManager.getOrFetch.
    rewrite (CacheFacts.get_memory_hit _ k _ _ _ Hmem); [reflexivity|].
    unfold CacheManager.fresh. cbn [CacheManager.timestamp CacheManager.ttl].
    now apply Z.ltb_lt.
Qed.

Lemma getOrFetch_fetches_once_witness :
  exists c1,
    CacheManager.getOrFetch Examples.fresh_cache "entities"
      (fun calls : nat => (@CacheManager.Resolves string string (CacheManager.Value "[]"),
                           S calls))
      None Examples.at_start 0%nat
    = (inr (CacheManager.Value "[]"), c1, 1%nat)
    /\ CacheManager.getOrFetch c1 "entities" Examples.failing_fetch None
         (CacheManager.mkTiming 999 999 999 CacheManager.Done) 1%nat
       = (inr (CacheManager.Value "[]"), c1, 1%nat).
Proof.
  destruct (getOrFetch_fetches_once Examples.fresh_cache "entities"
              (fun calls : nat =>
                 (@CacheManager.Resolves string string (CacheManager.Value "[]"), S calls))
              None Examples.at_start 0%nat 1%nat "[]" eq_refl eq_refl)
    as (c1 & life & Hrun & Hlife & Hlater).
  exists c1. split; [exact Hrun|].
  apply Hlater. rewrite Hlife. cbn. lia.
Defined.



(** X23.  [invalidate] removes the key from both tiers when the file
    could be deleted: every later [get] returns [null] and leaves the
    cache alone.  When deleting the file fails, the failure is ignored
    and a durable record that is still fresh is served again by the next
    [get], which puts it back into memory. *)
Theorem invalidate_effect {T : Type} (c : CacheManager.t T) (k : string)
        (now_mem now_disk : Z) :
  CacheManager.get (CacheManager.invalidate c k CacheManager.Done) k now_mem now_disk
  = (CacheManager.Null, CacheManager.invalidate c k CacheManager.Done)
  /\ forall r,
      CacheManager.disk c !! k = Some (CacheManager.Parsed r) ->
      CacheManager.fresh now_disk r = true ->
      exists c1,
        CacheManager.get (CacheManager.invalidate c k CacheManager.Failed) k
          now_mem now_disk = (CacheManager.cached_data r, c1)
        /\ CacheManager.memoryCache c1 !! k = Some r.
Proof.
  split.
  - apply CacheFacts.get_miss. unfold CacheManager.invalidate.
    split; intros r; cbn [CacheManager.memoryCache CacheManager.disk
                            CacheManager.with_memory CacheManager.with_disk];
      rewrite lookup_delete_eq; discriminate.
  - intros r Hd Hf. eexists. split.
    + apply CacheMore.get_disk_hit; [|exact Hd|exact Hf].
      intros m. unfold CacheManager.invalidate.
      cbn [CacheManager.memoryCache CacheManager.with_memory].
      rewrite lookup_delete_eq. discriminate.
    + cbn [CacheManager.memoryCache CacheManager.with_memory]. apply lookup_insert_eq.
Qed.

Lemma invalidate_effect_witness :
  let c := CacheManager.set Examples.fresh_cache "areas" (CacheManager.Value "[]")
             None 0%Z CacheManager.Done in
  fst (CacheManager.get (CacheManager.invalidate c "areas" CacheManager.Failed)
         "areas" 5%Z 5%Z)
  = CacheManager.Value "[]".
Proof.
  intros c.
  destruct (proj2 (invalidate_effect c "areas" 5%Z 5%Z)
              (CacheManager.mkCached (CacheManager.Value "[]") 0%Z 1000%Z))
    as (c1 & H & _).
  - vm_compute. reflexivity.
  - reflexivity.
  - now rewrite H.
Defined.

(** X24.  What was stored with a successful file write survives a
    restart: a new manager over the same cache directory, whose memory is
    empty, returns the stored data to a [get] whose reading after the file
    read falls within the ttl, and holds the record in memory afterwards. *)
Theorem durable_tier_survives_restart {T : Type} (c : CacheManager.t T) (k : string)
        (d : CacheManager.data T) (ttl : option Z) (t0 : Z)
        (cacheTTL' : option Z) (now_mem now_disk : Z) :
  let c1 := CacheManager.set c k d ttl t0 CacheManager.Done in
  let restarted := CacheManager.create cacheTTL' (CacheManager.disk c1) in
  (now_disk - t0 < CacheManager.stored_ttl c ttl)%Z ->
  exists c2,
    CacheManager.get restarted k now_mem now_disk = (d, c2)
    /\ CacheManager.memoryCache c2 !! k
       = Some (CacheManager.mkCached d t0 (CacheManager.stored_ttl c ttl))
    /\ CacheManager.disk c2 = CacheManager.disk c1.
Proof.
  intros c1 restarted Hfresh. subst c1 restarted.
  eexists. split; [|split].
  - apply (CacheMore.get_disk_hit _ k
             (CacheManager.mkCached d t0 (CacheManager.stored_ttl c ttl))).
    + intros m. unfold CacheManager.create. cbn [CacheManager.memoryCache].
      rewrite lookup_empty. discriminate.
    + unfold CacheManager.create. cbn [CacheManager.disk].
      apply CacheFacts.set_disk_done.
    + unfold CacheManager.fresh. cbn [CacheManager.timestamp CacheManager.ttl].
      now apply Z.ltb_lt.
  - cbn [CacheManager.memoryCache CacheManager.with_memory]. apply lookup_insert_eq.
  - reflexivity.
Qed.

Lemma durable_tier_survives_restart_witness :
  let c1 := CacheManager.set Examples.fresh_cache "areas" (CacheManager.Value "[]")
              (Some 1000%Z) 0%Z CacheManager.Done in
  fst (CacheManager.get (CacheManager.create None (CacheManager.disk c1)) "areas"
         400%Z 400%Z)
  = CacheManager.Value "[]".
Proof.
  intros c1.
  destruct (durable_tier_survives_restart Examples.fresh_cache "areas"
              (CacheManager.Value "[]") (Some 1000%Z) 0%Z None 400%Z 400%Z)
    as (c2 & H & _).
  - cbn. lia.
  - subst c1. now rewrite H.
Defined.

(** X25.  One firing of the auto-refresh timer.  When the fetch function
    rejects, the cache is exactly as before (the last value stays stored
    and its life is not extended).  When it resolves, the new value
    replaces the old one and is served for the manager's default ttl from
    the time of the refresh, whatever ttl the key had been stored with. *)
Theorem refresh_tick_effect {T E Env : Type}
        (c : CacheManager.t T) (k : string) (fetchFn : CacheManager.fetcher T E Env)
        (now : Z) (w : CacheManager.io_result) (env : Env) :
  match fetchFn env with
  | (CacheManager.Rejects _, env1) =>
      CacheManager.refresh_tick c k fetchFn now w env = (c, env1)
  | (CacheManager.Resolves d, env1) =>
      exists c1,
        CacheManager.refresh_tick c k fetchFn now w env = (c1, env1)
        /\ CacheManager.memoryCache c1 !! k
           = Some (CacheManager.mkCached d now (CacheManager.cacheTTL c))
        /\ forall now_mem now_disk,
            (now_mem - now < CacheManager.cacheTTL c)%Z ->
            CacheManager.get c1 k now_mem now_disk = (d, c1)
  end.
Proof.
  unfold CacheManager.refresh_tick.
  destruct (fetchFn env) as [[d|err] env1]; [|reflexivity].
  eexists. split; [reflexivity|].
  pose proof (CacheFacts.set_memory c k d (Some (CacheManager.cacheTTL c)) now w) as Hmem.
  cbn [CacheManager.stored_ttl] in Hmem. split; [exact Hmem|].
  intros now_mem now_disk Hfresh.
  rewrite (CacheFacts.get_memory_hit _ k _ now_mem now_disk Hmem); [reflexivity|].
  unfold CacheManager.fresh. cbn [CacheManager.timestamp CacheManager.ttl].
  now apply Z.ltb_lt.
Qed.

Lemma refresh_tick_effect_witness :
  exists c1,
    CacheManager.refresh_tick Examples.fresh_cache "entities"
      (fun calls : nat => (@CacheManager.Resolves string string (CacheManager.Value "[]"),
                           S calls))
      100%Z CacheManager.Failed 0%nat = (c1, 1%nat)
    /\ CacheManager.get c1 "entities" 1099%Z 1099%Z = (CacheManager.Value "[]", c1).
Proof.
  pose proof (refresh_tick_effect Examples.fresh_cache "entities"
                (fun calls : nat =>
                   (@CacheManager.Resolves string string (CacheManager.Value "[]"), S calls))
                100%Z CacheManager.Failed 0%nat) as H.
  cbv beta iota in H. destruct H as (c1 & Hrun & _ & Hget).
  exists c1. split; [exact Hrun|]. apply Hget. cbn. lia.
Defined.



(** ** The service tools *)

Module ToolsMore.




(** The part of an identifier in front of its first dot, followed by the
    dot, is how the identifier starts. *)
Lemma domain_prefix id :
  Js.includes id "." = true -> in_domain (hd "" (Js.split "." id)) id = true.
Proof.
  unfold in_domain, Js.startsWith.
  induction id as [|c r IH]; [discriminate|].
  cbn [Js.split Js.includes String.prefix].
  destruct (Ascii.eqb c ".") eqn:Hc.
  - apply Ascii.eqb_eq in Hc. subst c. intros _. cbn [hd].
    change ("" ++ ".") with ".". cbn [String.prefix].
    destruct (ascii_dec "." "."); [now destruct r|contradiction].
  - assert (Hne : c <> "."%char) by (now apply Ascii.eqb_neq).
    destruct (ascii_dec "." c) as [Heq|_]; [symmetry in Heq; contradiction|].
    cbn [orb]. intros Hr. specialize (IH Hr).
    destruct (WordsFacts.split_cons "." r) as (w & ws & Hsp).
    rewrite Hsp in *. cbn [hd] in *.
    change (String c w ++ ".") with (String c (w ++ ".")).
    cbn [String.prefix]. destruct (ascii_dec c c); [exact IH|contradiction].
Qed.

End ToolsMore.



(** X28.  [turnOn] and [turnOff] never rebuild the index: when the entity
    does not resolve against the index at hand they fail with "Could not
    resolve entity from provided parameters"; when it resolves, the
    request goes to the domain in front of the first dot of the resolved
    identifier, which is the identifier's own domain, with that
    identifier as target, and the server state is unchanged. *)
Theorem turn_uses_resolved_entity
        (service : string) (s : Bridge.t) (a : Args.t) (f : BridgeTools.index_fetch) :
  (Bridge.resolveEntityId s a = None ->
   BridgeTools.turn service s a f
   = inl "Could not resolve entity from provided parameters")
  /\ (forall id,
         Bridge.resolveEntityId s a = Some id -> id <> "" ->
         BridgeTools.turn service s a f
         = inr (BridgeTools.mkCall (Some (hd "" (Js.split "." id))) service (Some id), s)
         /\ (Js.includes id "." = true -> in_domain (hd "" (Js.split "." id)) id = true)).
Proof.
  split.
  - intros Hres. unfold BridgeTools.turn. now rewrite Hres.
  - intros id Hres Hid. split; [|apply ToolsMore.domain_prefix].
    unfold BridgeTools.turn. rewrite Hres.
    pose proof Hid as Hid'. apply String.eqb_neq in Hid'. rewrite Hid'.
    unfold BridgeTools.callService, Bridge.resolveEntityId.
    repeat (progress (cbn [Args.entity_id Args.name Args.area Args.domain
                               Js.truthy negb andb orb])
            || rewrite Hid').
    reflexivity.
Qed.

Lemma turn_uses_resolved_entity_witness :
  BridgeTools.turnOn Bridge.empty (by_name "fan") MoreExamples.fans_fetch
  = inl "Could not resolve entity from provided parameters"
  /\ BridgeTools.turnOn Examples.fans_server (by_name "fan") MoreExamples.fans_fetch
     = inr (BridgeTools.mkCall (Some "fan") "turn_on" (Some "fan.den_fan"),
            Examples.fans_server).
Proof.
  assert (Hid : "fan.den_fan" <> "") by discriminate.
  split.
  - exact (proj1 (turn_uses_resolved_entity "turn_on" Bridge.empty (by_name "fan")
                    MoreExamples.fans_fetch) eq_refl).
  - assert (Hres : Bridge.resolveEntityId Examples.fans_server (by_name "fan")
                   = Some "fan.den_fan") by (vm_compute; reflexivity).
    exact (proj1 (proj2 (turn_uses_resolved_entity "turn_on" Examples.fans_server
                           (by_name "fan") MoreExamples.fans_fetch)
                    "fan.den_fan" Hres Hid)).
Defined.

(** ** [exploreEntities] *)

Module ObjectFacts.
Import JsObject.

Section Generic.
Context {A : Type}.








(** *** The descending sort *)





End Generic.



End ObjectFacts.

Module ExploreFacts.
Import Explore.

Local Open Scope Z_scope.









End ExploreFacts.




